(** * Shateki: a shooting-gallery game driven by hand gestures

    A shallow embedding of [src/game.js] (the [Game] class: match state,
    target life cycle, hit resolution) and of the gesture handling of
    [src/main.js] ([processGestures], [fireShot], [animate]).

    Numbers.  JavaScript numbers are modelled by exact rationals [Q]: the
    arithmetic of the source is kept operation by operation, rounding is
    not modelled.  The score only ever receives integer point values and is
    an integer [Z].  [Math.PI] is the double-precision constant of the
    language, which is itself a rational number.

    Where an outcome of the program (a match ended, a shot fired, a doll
    fallen) could depend on rounding, the properties are stated so that
    they rest on the order of numbers, on the comparisons the code makes
    and on the values it assigns, not on sums or products being exact;
    lemmas that hold in exact arithmetic only say so.  Where rounding
    decides an outcome, the code is run on doubles in module [Doubles]. *)

From Stdlib Require Import QArith ZArith List Bool Lia Lqa Floats.
From Stdlib Require Reals Qreals Lra.
From stdpp Require Import base list.
Import ListNotations.

(** ** Comparisons on numbers *)

Definition Qlt_bool (a b : Q) : bool := negb (Qle_bool b a).

(** [Math.PI], the double nearest to pi: 884279719003555 / 2^48. *)
Definition Math_PI : Q := 884279719003555 # 281474976710656.

(** ** Data model of [game.js] *)

(** [userData.state]: the strings "standing", "falling", "fallen". *)
Inductive DollState : Set := standing | falling | fallen.

Record Vector2 : Set := { v2_x : Q; v2_y : Q }.
Record Vector3 : Set := { v3_x : Q; v3_y : Q; v3_z : Q }.

(** [doll.userData] *)
Record UserData : Set := {
  isTarget : bool;
  points : Z;
  state : DollState
}.

(** The doll mesh: its material colour, its offset inside the pivot group
    and its [userData]. *)
Record Mesh : Set := {
  color : Z;
  mesh_position : Vector3;
  userData : UserData
}.

(** The pivot group pushed on [this.dolls]: [pivot.position],
    [pivot.rotation.x] and [pivot.children[0]]. *)
Record Pivot : Set := {
  position : Vector3;
  rotation_x : Q;
  child : Mesh
}.

(** One entry of the array [raycaster.intersectObjects] returns.  The hit
    [object] is a reference to one of the meshes it was given; it is
    modelled by the index of that mesh's pivot in [this.dolls]. *)
Record Intersection : Set := {
  distance : Q;
  object : nat
}.

(** The two backgrounds [updateUI] gives the time bar. *)
Inductive BarBackground : Set := bar_red | bar_gradient.

(** The elements of the page the program writes to. *)
Record Dom : Set := {
  score_innerText : Z;
  time_bar_scaleX : Q;
  time_bar_background : BarBackground;
  game_over_hidden : bool;
  final_score_innerText : Z;
  start_screen_hidden : bool;
  crosshair_opacity : Q;
  crosshair_left : Q;
  crosshair_top : Q;
  crosshair_shooting : bool
}.

(** The audio cues, in the order they were requested. *)
Inductive Sound : Set := HitSound | ShootSound.

(** The fields of a [Game] object, together with the page and the audio
    output its methods act on. *)
Record Game : Set := {
  score : Z;
  totalTime : Q;
  timeLeft : Q;
  isPlaying : bool;
  dolls : list Pivot;
  document : Dom;
  audio : list Sound
}.

Definition set_state (s : DollState) (u : UserData) : UserData :=
  {| isTarget := isTarget u; points := points u; state := s |}.

Definition set_userData_state (s : DollState) (m : Mesh) : Mesh :=
  {| color := color m; mesh_position := mesh_position m;
     userData := set_state s (userData m) |}.

Definition doll_state (p : Pivot) : DollState := state (userData (child p)).
Definition doll_points (p : Pivot) : Z := points (userData (child p)).

Definition with_dolls (ds : list Pivot) (g : Game) : Game :=
  {| score := score g; totalTime := totalTime g; timeLeft := timeLeft g;
     isPlaying := isPlaying g; dolls := ds; document := document g;
     audio := audio g |}.

Definition with_timeLeft (t : Q) (g : Game) : Game :=
  {| score := score g; totalTime := totalTime g; timeLeft := t;
     isPlaying := isPlaying g; dolls := dolls g; document := document g;
     audio := audio g |}.

Definition with_document (d : Dom) (g : Game) : Game :=
  {| score := score g; totalTime := totalTime g; timeLeft := timeLeft g;
     isPlaying := isPlaying g; dolls := dolls g; document := d;
     audio := audio g |}.

Definition play (s : Sound) (g : Game) : Game :=
  {| score := score g; totalTime := totalTime g; timeLeft := timeLeft g;
     isPlaying := isPlaying g; dolls := dolls g; document := document g;
     audio := audio g ++ [s] |}.

(** [playHitSound] and [playShootSound]: each requests one cue. *)
Definition playHitSound (g : Game) : Game := play HitSound g.
Definition playShootSound (g : Game) : Game := play ShootSound g.

(** ** The methods of [Game] *)

Module GameOps.

Local Open Scope Q_scope.

(** [constructor], on a page in state [page].  The world is built later,
    when the background texture has loaded (see [onBackgroundLoaded]). *)
Definition constructor (page : Dom) : Game :=
  {| score := 0; totalTime := 30; timeLeft := 30; isPlaying := false;
     dolls := []; document := page; audio := [] |}.

Definition shelfY : list Q := [2; -1; -4].
Definition colors : list Z := [0xff0000; 0x00ff00; 0x0000ff; 0xffff00; 0xff00ff]%Z.

(** The body of the [for] loop of [createDolls], for doll [i] of the shelf
    at height [y] with index [layerIndex]. *)
Definition make_doll (bgWidth y : Q) (layerIndex i : nat) : Pivot :=
  let count := (5 + layerIndex)%nat in
  let spacing := (bgWidth * 0.6) / inject_Z (Z.of_nat count) in
  let x := (inject_Z (Z.of_nat i) - (inject_Z (Z.of_nat count) - 1) / 2) * spacing in
  let z := -12 + inject_Z (Z.of_nat layerIndex) * 1.5 in
  {| position := {| v3_x := x; v3_y := y - 0.6; v3_z := z |};
     rotation_x := 0;
     child :=
       {| color := nth ((i + layerIndex) mod length colors) colors 0%Z;
          mesh_position := {| v3_x := 0; v3_y := 0.6; v3_z := 0 |};
          userData :=
            {| isTarget := true;
               points := ((3 - Z.of_nat layerIndex) * 10)%Z;
               state := standing |} |} |}.

Definition shelf_dolls (bgWidth : Q) (layer : nat * Q) : list Pivot :=
  let '(layerIndex, y) := layer in
  map (make_doll bgWidth y layerIndex) (seq 0 (5 + layerIndex)).

(** [createDolls]: pushes the dolls of each shelf, top shelf first. *)
Definition createDolls (bgWidth bgHeight : Q) (g : Game) : Game :=
  with_dolls
    (dolls g ++ flat_map (shelf_dolls bgWidth) (combine (seq 0 (length shelfY)) shelfY))
    g.

(** The callback [initWorld] hands to the texture loader, for a background
    image of the given size. *)
Definition onBackgroundLoaded (imageWidth imageHeight : Q) (g : Game) : Game :=
  let aspectRatio := imageWidth / imageHeight in
  let planeHeight := 20 in
  let planeWidth := planeHeight * aspectRatio in
  createDolls planeWidth planeHeight g.

(** [updateUI] *)
Definition updateUI (g : Game) : Game :=
  let d := document g in
  let pct := (timeLeft g / 60) * 100 in
  with_document
    {| score_innerText := score g;
       time_bar_scaleX := pct / 100;
       time_bar_background := if Qlt_bool pct 20 then bar_red else bar_gradient;
       game_over_hidden := game_over_hidden d;
       final_score_innerText := final_score_innerText d;
       start_screen_hidden := start_screen_hidden d;
       crosshair_opacity := crosshair_opacity d;
       crosshair_left := crosshair_left d;
       crosshair_top := crosshair_top d;
       crosshair_shooting := crosshair_shooting d |}
    g.

(** [endGame] *)
Definition endGame (g : Game) : Game :=
  let d := document g in
  {| score := score g; totalTime := totalTime g; timeLeft := timeLeft g;
     isPlaying := false; dolls := dolls g;
     document :=
       {| score_innerText := score_innerText d;
          time_bar_scaleX := time_bar_scaleX d;
          time_bar_background := time_bar_background d;
          game_over_hidden := false;
          final_score_innerText := score g;
          start_screen_hidden := start_screen_hidden d;
          crosshair_opacity := 0;
          crosshair_left := crosshair_left d;
          crosshair_top := crosshair_top d;
          crosshair_shooting := crosshair_shooting d |};
     audio := audio g |}.

(** The body of the [forEach] of [start]. *)
Definition reset_doll (p : Pivot) : Pivot :=
  {| position := position p; rotation_x := 0;
     child := set_userData_state standing (child p) |}.

(** [start] *)
Definition start (g : Game) : Game :=
  let g1 :=
    {| score := 0; totalTime := totalTime g; timeLeft := totalTime g;
       isPlaying := true; dolls := dolls g; document := document g;
       audio := audio g |} in
  let g2 := updateUI g1 in
  with_dolls (map reset_doll (dolls g2)) g2.

(** The body of the [forEach] of [update]. *)
Definition fall_doll (dt : Q) (p : Pivot) : Pivot :=
  match doll_state p with
  | falling =>
      let fallSpeed := 5 * dt in
      let r := rotation_x p - fallSpeed in
      if Qlt_bool r (- Math_PI / 2)
      then {| position := position p; rotation_x := - Math_PI / 2;
              child := set_userData_state fallen (child p) |}
      else {| position := position p; rotation_x := r; child := child p |}
  | _ => p
  end.

(** [update] *)
Definition update (dt : Q) (g : Game) : Game :=
  if negb (isPlaying g) then g
  else
    let g1 := with_timeLeft (timeLeft g - dt) g in
    let g2 := if Qle_bool (timeLeft g1) 0 then endGame (with_timeLeft 0 g1) else g1 in
    let g3 := with_dolls (map (fall_doll dt) (dolls g2)) g2 in
    updateUI g3.

Section Raycasting.

(** [raycaster.setFromCamera(ndc, camera)] followed by
    [raycaster.intersectObjects(targets)]: the scene query of the rendering
    library, for the fixed camera of the page.  What it finds depends on
    the aim point and on where the dolls currently are. *)
Variable intersectObjects : Vector2 -> list Pivot -> list Intersection.

(** The mutation [hitObj.userData.state = "falling"], seen from
    [this.dolls]. *)
Definition knock (p : Pivot) : Pivot :=
  {| position := position p; rotation_x := rotation_x p;
     child := set_userData_state falling (child p) |}.

Definition hit (i : nat) (p : Pivot) (g : Game) : Game :=
  playHitSound
    {| score := (score g + doll_points p)%Z; totalTime := totalTime g;
       timeLeft := timeLeft g; isPlaying := isPlaying g;
       dolls := alter knock i (dolls g); document := document g;
       audio := audio g |}.

(** [shoot]; the result is [None] for the bare [return] of the first line,
    otherwise the boolean returned.  A hit object is always one of the
    meshes handed to the raycaster, so its lookup in [this.dolls] succeeds
    (hypothesis [intersect_in_range] below); the model counts a stray
    index as a miss. *)
Definition shoot (ndc : Vector2) (g : Game) : option bool * Game :=
  if negb (isPlaying g) then (None, g)
  else
    let intersects := intersectObjects ndc (dolls g) in
    match intersects with
    | i0 :: _ =>
        match dolls g !! object i0 with
        | Some hitObj =>
            match doll_state hitObj with
            | standing => (Some true, hit (object i0) hitObj g)
            | _ => (Some false, playShootSound g)
            end
        | None => (Some false, playShootSound g)
        end
    | [] => (Some false, playShootSound g)
    end.

End Raycasting.

End GameOps.

(** ** The gesture handling of [main.js] *)

(** A hand landmark; only [x] and [y] are read. *)
Record Landmark : Set := { lm_x : Q; lm_y : Q }.

(** One detected hand.  Of its landmarks the program reads [landmarks[4]]
    (thumb tip) and [landmarks[8]] (index-finger tip). *)
Record Hand : Set := { thumbTip : Landmark; indexTip : Landmark }.

(** The object passed to [hands.onResults]; [multiHandLandmarks] may be
    missing. *)
Record Results : Set := { multiHandLandmarks : option (list Hand) }.

(** The module-level variables of [main.js] ([handResults] starts as
    [null]), the game object and the window size read by the handlers. *)
Record Main : Set := {
  game : Game;
  handResults : option Results;
  isPinching : bool;
  pinchCooldown : Q;
  innerWidth : Q;
  innerHeight : Q
}.

Definition with_game (g : Game) (m : Main) : Main :=
  {| game := g; handResults := handResults m; isPinching := isPinching m;
     pinchCooldown := pinchCooldown m; innerWidth := innerWidth m;
     innerHeight := innerHeight m |}.

Definition with_handResults (r : option Results) (m : Main) : Main :=
  {| game := game m; handResults := r; isPinching := isPinching m;
     pinchCooldown := pinchCooldown m; innerWidth := innerWidth m;
     innerHeight := innerHeight m |}.

Definition with_pinch (pinching : bool) (cooldown : Q) (m : Main) : Main :=
  {| game := game m; handResults := handResults m; isPinching := pinching;
     pinchCooldown := cooldown; innerWidth := innerWidth m;
     innerHeight := innerHeight m |}.

Definition crosshair_hide (d : Dom) : Dom :=
  {| score_innerText := score_innerText d;
     time_bar_scaleX := time_bar_scaleX d;
     time_bar_background := time_bar_background d;
     game_over_hidden := game_over_hidden d;
     final_score_innerText := final_score_innerText d;
     start_screen_hidden := start_screen_hidden d;
     crosshair_opacity := 0;
     crosshair_left := crosshair_left d;
     crosshair_top := crosshair_top d;
     crosshair_shooting := crosshair_shooting d |}.

Definition crosshair_show (x y : Q) (d : Dom) : Dom :=
  {| score_innerText := score_innerText d;
     time_bar_scaleX := time_bar_scaleX d;
     time_bar_background := time_bar_background d;
     game_over_hidden := game_over_hidden d;
     final_score_innerText := final_score_innerText d;
     start_screen_hidden := start_screen_hidden d;
     crosshair_opacity := 1;
     crosshair_left := x;
     crosshair_top := y;
     crosshair_shooting := crosshair_shooting d |}.

Definition crosshair_set_shooting (b : bool) (d : Dom) : Dom :=
  {| score_innerText := score_innerText d;
     time_bar_scaleX := time_bar_scaleX d;
     time_bar_background := time_bar_background d;
     game_over_hidden := game_over_hidden d;
     final_score_innerText := final_score_innerText d;
     start_screen_hidden := start_screen_hidden d;
     crosshair_opacity := crosshair_opacity d;
     crosshair_left := crosshair_left d;
     crosshair_top := crosshair_top d;
     crosshair_shooting := b |}.

Definition hide_overlays (start_screen game_over : bool) (d : Dom) : Dom :=
  {| score_innerText := score_innerText d;
     time_bar_scaleX := time_bar_scaleX d;
     time_bar_background := time_bar_background d;
     game_over_hidden := game_over || game_over_hidden d;
     final_score_innerText := final_score_innerText d;
     start_screen_hidden := start_screen || start_screen_hidden d;
     crosshair_opacity := crosshair_opacity d;
     crosshair_left := crosshair_left d;
     crosshair_top := crosshair_top d;
     crosshair_shooting := crosshair_shooting d |}.

Definition on_page (f : Dom -> Dom) (m : Main) : Main :=
  with_game (with_document (f (document (game m))) (game m)) m.

Module MainOps.

Import GameOps.
Local Open Scope Q_scope.

Definition PINCH_THRESHOLD : Q := 0.05.

(** The argument of [Math.sqrt] in [processGestures]: the squared distance
    between the index-finger tip and the thumb tip. *)
Definition pinch_distance_sq (landmarks : Hand) : Q :=
  (lm_x (indexTip landmarks) - lm_x (thumbTip landmarks)) ^ 2 +
  (lm_y (indexTip landmarks) - lm_y (thumbTip landmarks)) ^ 2.

(** [distance]: the square root, a real number. *)
Definition pinch_distance (landmarks : Hand) : Rdefinitions.R :=
  R_sqrt.sqrt (Rdefinitions.Q2R (pinch_distance_sq landmarks)).

(** The test [distance < PINCH_THRESHOLD].  The square root of a rational
    is in general not rational, so the test is taken on the squares: for
    the non-negative [distance] and the positive threshold the two
    comparisons agree. *)
Definition pinch_closed (landmarks : Hand) : bool :=
  Qlt_bool (pinch_distance_sq landmarks) (PINCH_THRESHOLD ^ 2).

(** The page and the variables of [main.js] when the script has run:
    nothing detected yet, no pinch, no cooldown. *)
Definition main_init (page : Dom) (width height : Q) : Main :=
  {| game := constructor page; handResults := None; isPinching := false;
     pinchCooldown := 0; innerWidth := width; innerHeight := height |}.

Section Raycasting.

Variable intersectObjects : Vector2 -> list Pivot -> list Intersection.

(** [fireShot] *)
Definition fireShot (screenX screenY : Q) (m : Main) : Main :=
  let ndc :=
    {| v2_x := (screenX / innerWidth m) * 2 - 1;
       v2_y := - (screenY / innerHeight m) * 2 + 1 |} in
  with_game (snd (shoot intersectObjects ndc (game m))) m.

(** [processGestures]; the boolean tells whether [fireShot] was called. *)
Definition processGestures (m : Main) : bool * Main :=
  match handResults m with
  | Some {| multiHandLandmarks := Some (landmarks :: _) |} =>
      if negb (isPlaying (game m)) then (false, m)
      else
        let x := (1 - lm_x (indexTip landmarks)) * innerWidth m in
        let y := lm_y (indexTip landmarks) * innerHeight m in
        let m1 := on_page (crosshair_show x y) m in
        if pinch_closed landmarks then
          if negb (isPinching m1) && Qle_bool (pinchCooldown m1) 0 then
            let m2 := fireShot x y m1 in
            (true, on_page (crosshair_set_shooting true) (with_pinch true 0.5 m2))
          else (false, m1)
        else
          (false,
           on_page (crosshair_set_shooting false) (with_pinch false (pinchCooldown m1) m1))
  | _ => (false, on_page crosshair_hide m)
  end.

(** The callback given to [hands.onResults]. *)
Definition onResults (results : Results) (m : Main) : bool * Main :=
  processGestures (with_handResults (Some results) m).

(** [animate], for the frame time [dt] the clock returned. *)
Definition animate (dt : Q) (m : Main) : Main :=
  let cooldown :=
    if Qlt_bool 0 (pinchCooldown m) then pinchCooldown m - dt else pinchCooldown m in
  let m1 := with_pinch (isPinching m) cooldown m in
  with_game (update dt (game m1)) m1.

(** The click handlers of the start and restart buttons. *)
Definition onStartClick (m : Main) : Main :=
  with_game (start (game (on_page (hide_overlays true false) m))) m.

Definition onRestartClick (m : Main) : Main :=
  with_game (start (game (on_page (hide_overlays false true) m))) m.

(** What the host page can deliver to the script. *)
Inductive Event : Set :=
| StartClicked
| RestartClicked
| HandsResults (results : Results)
| AnimationFrame (dt : Q)
| BackgroundLoaded (imageWidth imageHeight : Q).

Definition handle (e : Event) (m : Main) : bool * Main :=
  match e with
  | StartClicked => (false, onStartClick m)
  | RestartClicked => (false, onRestartClick m)
  | HandsResults results => onResults results m
  | AnimationFrame dt => (false, animate dt m)
  | BackgroundLoaded w h => (false, with_game (onBackgroundLoaded w h (game m)) m)
  end.

(** Runs the handlers in order; the list tells, event by event, whether a
    shot was fired. *)
Fixpoint run_events (es : list Event) (m : Main) : list bool * Main :=
  match es with
  | [] => ([], m)
  | e :: es' =>
      let '(fired, m1) := handle e m in
      let '(rest, m2) := run_events es' m1 in
      (fired :: rest, m2)
  end.

(** The number of shots fired over a run of events. *)
Definition shots_fired (es : list Event) (m : Main) : nat :=
  length (List.filter (fun b : bool => b) (fst (run_events es m))).

End Raycasting.

(** Whether an event lets a pinch go on: every event does, except a
    detection that shows the hand with the pinch open. *)
Definition keeps_pinch (e : Event) : bool :=
  match e with
  | HandsResults {| multiHandLandmarks := Some (landmarks :: _) |} =>
      pinch_closed landmarks
  | _ => true
  end.

Definition count_fired (flags : list bool) : nat :=
  length (List.filter (fun b : bool => b) flags).

End MainOps.

(** ** Runs of the game *)

Module Runs.

Import GameOps.
Local Open Scope Q_scope.

(** The calls that reach a [Game] object: its three public methods and the
    texture loader's callback. *)
Inductive Op : Set :=
| OpStart
| OpUpdate (dt : Q)
| OpShoot (ndc : Vector2)
| OpBackgroundLoaded (imageWidth imageHeight : Q).

Definition is_play_op (op : Op) : bool :=
  match op with
  | OpUpdate _ | OpShoot _ => true
  | _ => false
  end.

Definition is_load_op (op : Op) : bool :=
  match op with
  | OpBackgroundLoaded _ _ => true
  | _ => false
  end.

(** How often the background texture finishes loading during a run; the
    loader calls back once per request and [initWorld] makes one request. *)
Definition loads (ops : list Op) : nat := length (List.filter is_load_op ops).

Section Raycasting.

Variable intersectObjects : Vector2 -> list Pivot -> list Intersection.

Definition step (op : Op) (g : Game) : Game :=
  match op with
  | OpStart => start g
  | OpUpdate dt => update dt g
  | OpShoot ndc => snd (shoot intersectObjects ndc g)
  | OpBackgroundLoaded w h => onBackgroundLoaded w h g
  end.

Fixpoint run (ops : list Op) (g : Game) : Game :=
  match ops with
  | [] => g
  | op :: ops' => run ops' (step op g)
  end.

End Raycasting.

Fixpoint run_updates (dts : list Q) (g : Game) : Game :=
  match dts with
  | [] => g
  | dt :: dts' => run_updates dts' (update dt g)
  end.



(** Whether a list of intersections is ordered nearest first: every entry
    is at most as far as all the entries after it. *)
Fixpoint nearest_first (l : list Intersection) : bool :=
  match l with
  | [] => true
  | i :: rest =>
      forallb (fun j => Qle_bool (distance i) (distance j)) rest && nearest_first rest
  end.

(** The order standing, falling, fallen. *)
Definition state_rank (s : DollState) : nat :=
  match s with
  | standing => 0
  | falling => 1
  | fallen => 2
  end.

(** The total value of the dolls that are not standing. *)
Fixpoint knocked_value (ds : list Pivot) : Z :=
  match ds with
  | [] => 0
  | p :: ds' =>
      ((match doll_state p with standing => 0 | _ => doll_points p end)
       + knocked_value ds')%Z
  end.

Definition sum_points (vs : list Z) : Z := fold_right Z.add 0%Z vs.

(** The height at which a doll stands in the world: its pivot's height
    plus its offset inside the pivot. *)
Definition doll_height (p : Pivot) : Q :=
  v3_y (position p) + v3_y (mesh_position (child p)).

(** The row of a doll counted from the lowest shelf, which is row 1. *)
Definition rowsFromBottom (p : Pivot) : Z :=
  (1 + Z.of_nat (length (List.filter (fun y => Qlt_bool y (doll_height p)) shelfY)))%Z.

(** The dolls [createDolls] adds to an empty world. *)
Definition created (bgWidth bgHeight : Q) (page : Dom) : list Pivot :=
  dolls (createDolls bgWidth bgHeight (constructor page)).

(** The point values of the dolls of a built world, in creation order. *)
Definition world_points : list Z :=
  [30; 30; 30; 30; 30; 20; 20; 20; 20; 20; 20; 10; 10; 10; 10; 10; 10; 10]%Z.


End Runs.

(** ** The pinch latch seen on its own *)

Module PinchView.

Import GameOps MainOps.
Local Open Scope Q_scope.

(** The part of the state the pinch logic reads and writes: whether a
    match is on, the clock of the match, and the two gesture variables. *)
Record View : Set := {
  v_playing : bool;
  v_totalTime : Q;
  v_timeLeft : Q;
  v_hand : option Results;
  v_pinching : bool;
  v_cooldown : Q
}.

Definition view (m : Main) : View :=
  {| v_playing := isPlaying (game m); v_totalTime := totalTime (game m);
     v_timeLeft := timeLeft (game m); v_hand := handResults m;
     v_pinching := isPinching m; v_cooldown := pinchCooldown m |}.

Definition view_detect (v : View) : bool * View :=
  match v_hand v with
  | Some {| multiHandLandmarks := Some (landmarks :: _) |} =>
      if negb (v_playing v) then (false, v)
      else if pinch_closed landmarks then
        if negb (v_pinching v) && Qle_bool (v_cooldown v) 0 then
          (true,
           {| v_playing := v_playing v; v_totalTime := v_totalTime v;
              v_timeLeft := v_timeLeft v; v_hand := v_hand v;
              v_pinching := true; v_cooldown := 0.5 |})
        else (false, v)
      else
        (false,
         {| v_playing := v_playing v; v_totalTime := v_totalTime v;
            v_timeLeft := v_timeLeft v; v_hand := v_hand v;
            v_pinching := false; v_cooldown := v_cooldown v |})
  | _ => (false, v)
  end.

Definition view_tick (dt : Q) (v : View) : View :=
  let cooldown :=
    if Qlt_bool 0 (v_cooldown v) then v_cooldown v - dt else v_cooldown v in
  if negb (v_playing v) then
    {| v_playing := false; v_totalTime := v_totalTime v;
       v_timeLeft := v_timeLeft v; v_hand := v_hand v;
       v_pinching := v_pinching v; v_cooldown := cooldown |}
  else if Qle_bool (v_timeLeft v - dt) 0 then
    {| v_playing := false; v_totalTime := v_totalTime v;
       v_timeLeft := 0; v_hand := v_hand v;
       v_pinching := v_pinching v; v_cooldown := cooldown |}
  else
    {| v_playing := true; v_totalTime := v_totalTime v;
       v_timeLeft := v_timeLeft v - dt; v_hand := v_hand v;
       v_pinching := v_pinching v; v_cooldown := cooldown |}.

Definition view_start (v : View) : View :=
  {| v_playing := true; v_totalTime := v_totalTime v;
     v_timeLeft := v_totalTime v; v_hand := v_hand v;
     v_pinching := v_pinching v; v_cooldown := v_cooldown v |}.

Definition view_handle (e : Event) (v : View) : bool * View :=
  match e with
  | StartClicked | RestartClicked => (false, view_start v)
  | HandsResults results =>
      view_detect
        {| v_playing := v_playing v; v_totalTime := v_totalTime v;
           v_timeLeft := v_timeLeft v; v_hand := Some results;
           v_pinching := v_pinching v; v_cooldown := v_cooldown v |}
  | AnimationFrame dt => (false, view_tick dt v)
  | BackgroundLoaded _ _ => (false, v)
  end.

Fixpoint view_run (es : list Event) (v : View) : list bool :=
  match es with
  | [] => []
  | e :: es' => fst (view_handle e v) :: view_run es' (snd (view_handle e v))
  end.

End PinchView.

(** ** Sample inputs *)

Module Samples.

Import GameOps MainOps Runs.
Local Open Scope Q_scope.

Definition page0 : Dom :=
  {| score_innerText := 0; time_bar_scaleX := 1;
     time_bar_background := bar_gradient;
     game_over_hidden := true; final_score_innerText := 0;
     start_screen_hidden := false;
     crosshair_opacity := 0; crosshair_left := 0; crosshair_top := 0;
     crosshair_shooting := false |}.

(** A ray query that, for aim points in the left half of the screen, goes
    through doll 0 and then doll 5 behind it, and misses everything
    otherwise. *)
Definition left_ray (ndc : Vector2) (ds : list Pivot) : list Intersection :=
  if Qlt_bool (v2_x ndc) 0 then
    List.filter (fun i => (object i <? length ds)%nat)
      [ {| distance := 10; object := 0%nat |};
        {| distance := 13; object := 5%nat |} ]
  else [].

Definition aim_left : Vector2 := {| v2_x := -0.5; v2_y := 0.2 |}.
Definition aim_right : Vector2 := {| v2_x := 0.5; v2_y := 0.2 |}.

(** A match in progress in a world built for a 1600 x 900 background. *)
Definition playing0 : Game :=
  start (onBackgroundLoaded 1600 900 (constructor page0)).

(** The same world before any match was started. *)
Definition idle0 : Game := onBackgroundLoaded 1600 900 (constructor page0).

(** A hand whose thumb tip and index-finger tip are [d] apart. *)
Definition hand_at (d : Q) : Hand :=
  {| thumbTip := {| lm_x := 0.5; lm_y := 0.5 |};
     indexTip := {| lm_x := 0.5 + d; lm_y := 0.5 |} |}.

Definition sample (d : Q) : Event :=
  HandsResults {| multiHandLandmarks := Some [hand_at d] |}.

(** A hand pinched along the diagonal: the tips are the square root of
    0.0002 apart, which is no rational number. *)
Definition diagonal_hand : Hand :=
  {| thumbTip := {| lm_x := 0.5; lm_y := 0.5 |};
     indexTip := {| lm_x := 0.51; lm_y := 0.51 |} |}.

(** The distance samples 0.01, 0.01, 0.01, 0.06, 0.01, each detection
    followed by an animation frame of 0.1 s. *)
Definition debounce_frames : list Event :=
  flat_map (fun d => [sample d; AnimationFrame 0.1]) [0.01; 0.01; 0.01; 0.06; 0.01].

(** The same samples with the animation frame ahead of each detection. *)
Definition debounce_frames' : list Event :=
  flat_map (fun d => [AnimationFrame 0.1; sample d]) [0.01; 0.01; 0.01; 0.06; 0.01].

Definition main0 : Main := onStartClick (main_init page0 1280 720).

(** A short session: the match is started before the background has
    loaded, then two shots to the left with an update in between. *)
Definition session_ops : list Op :=
  [OpStart; OpBackgroundLoaded 1600 900; OpShoot aim_left; OpUpdate 0.1;
   OpShoot aim_left].

(** A fifth of the terminal angle, itself a double: five times this frame
    time is exactly [Math.PI / 2]. *)
Definition tenth_turn : Q := 176855943800711 # 562949953421312.


End Samples.

(** ** Time and shape of a session *)

Module Session.

Import GameOps MainOps Runs.
Local Open Scope Q_scope.

(** The frame time an operation hands to the game: [dt] for an update. *)
Definition op_time (op : Op) : Q :=
  match op with
  | OpUpdate dt => dt
  | _ => 0
  end.

(** Whether no update of a run is given a negative frame time (the clock
    of the page never runs backward). *)
Definition clock_forward (ops : list Op) : bool :=
  forallb (fun op => Qle_bool 0 (op_time op)) ops.

(** The same for the events of the page. *)
Definition event_time (e : Event) : Q :=
  match e with
  | AnimationFrame dt => dt
  | _ => 0
  end.

Fixpoint frame_time (es : list Event) : Q :=
  match es with
  | [] => 0
  | e :: es' => event_time e + frame_time es'
  end.

Definition frames_forward (es : list Event) : bool :=
  forallb (fun e => Qle_bool 0 (event_time e)) es.

Definition is_click (e : Event) : bool :=
  match e with
  | StartClicked | RestartClicked => true
  | _ => false
  end.

Definition no_click (es : list Event) : bool :=
  forallb (fun e => negb (is_click e)) es.

(** The cue a shot asks for, by what [shoot] returned. *)
Definition cue_of (result : option bool) : Sound :=
  match result with
  | Some true => HitSound
  | _ => ShootSound
  end.

(** How the rotation of a doll goes with its state: upright while
    standing, at the terminal angle once fallen, in between while
    falling. *)
Definition settled (p : Pivot) : Prop :=
  match doll_state p with
  | standing => rotation_x p = 0
  | falling => - Math_PI / 2 <= rotation_x p /\ rotation_x p <= 0
  | fallen => rotation_x p = - Math_PI / 2
  end.

Definition doll_x (p : Pivot) : Q := v3_x (position p).
Definition doll_z (p : Pivot) : Q := v3_z (position p).

(** The point values a doll can have. *)
Definition is_point_value (v : Z) : Prop := v = 10%Z \/ v = 20%Z \/ v = 30%Z.

(** After a shot: the hand opens and pinches again, with one animation
    frame of a quarter of a second in between. *)
Definition quick_repinch : list Event :=
  [Samples.sample 0.06; AnimationFrame 0.25; Samples.sample 0.01; Samples.sample 0.01].

(** The dolls of a built world shelf by shelf: five on the top shelf, six
    on the middle one, seven on the bottom one. *)
Definition shelf_rows (ds : list Pivot) : list (list Pivot) :=
  [firstn 5 ds; firstn 6 (skipn 5 ds); skipn 11 ds].

(** A row of positions that reads the same from either end with the sign
    changed. *)
Definition mirrored (xs : list Q) : Prop :=
  Forall2 (fun a b => a + b == 0) xs (rev xs).

(** A row of positions in which none lies left of the one before it. *)
Fixpoint left_to_right (xs : list Q) : Prop :=
  match xs with
  | a :: (b :: _) as rest => a <= b /\ left_to_right rest
  | _ => True
  end.

(** The number of animation frames among the events. *)
Definition frames (es : list Event) : nat :=
  length (List.filter (fun e => match e with AnimationFrame _ => true | _ => false end) es).

End Session.

(** ** The game on the numbers of the language

    The same methods of [game.js], computed on IEEE 754 double-precision
    numbers (the kernel's primitive floats), as the JavaScript engine
    computes them.  This model is used to run the code on concrete inputs
    where rounding decides the outcome; decimal literals stand for the
    nearest double, as in the source. *)

Module Doubles.

Local Open Scope float_scope.
Local Set Warnings "-inexact-float".

(** [Math.PI] *)
Definition Math_PI : float := 0x1.921fb54442d18p+1.

(** The exact rational value of a finite double (0 for infinities and
    NaN, which no run below produces). *)
Definition exact (f : float) : Q :=
  match Prim2SF f with
  | S754_finite s m e =>
      ((if s then -1 else 1) * inject_Z (Zpos m) * Qpower 2 e)%Q
  | _ => 0%Q
  end.

(** An integer of the source (a loop index, a count) as a double. *)
Definition of_nat (n : nat) : float := PrimFloat.of_uint63 (Uint63.of_Z (Z.of_nat n)).

Record Vector2 : Set := { v2_x : float; v2_y : float }.
Record Vector3 : Set := { v3_x : float; v3_y : float; v3_z : float }.

Record Mesh : Set := {
  color : Z;
  mesh_position : Vector3;
  userData : UserData
}.

Record Pivot : Set := {
  position : Vector3;
  rotation_x : float;
  child : Mesh
}.

Record Intersection : Set := {
  distance : float;
  object : nat
}.

Record Dom : Set := {
  score_innerText : Z;
  time_bar_scaleX : float;
  time_bar_background : BarBackground;
  game_over_hidden : bool;
  final_score_innerText : Z;
  start_screen_hidden : bool;
  crosshair_opacity : float;
  crosshair_left : float;
  crosshair_top : float;
  crosshair_shooting : bool
}.

Record Game : Set := {
  score : Z;
  totalTime : float;
  timeLeft : float;
  isPlaying : bool;
  dolls : list Pivot;
  document : Dom;
  audio : list Sound
}.

Definition set_userData_state (s : DollState) (m : Mesh) : Mesh :=
  {| color := color m; mesh_position := mesh_position m;
     userData := set_state s (userData m) |}.

Definition doll_state (p : Pivot) : DollState := state (userData (child p)).
Definition doll_points (p : Pivot) : Z := points (userData (child p)).

Definition with_dolls (ds : list Pivot) (g : Game) : Game :=
  {| score := score g; totalTime := totalTime g; timeLeft := timeLeft g;
     isPlaying := isPlaying g; dolls := ds; document := document g;
     audio := audio g |}.

Definition with_timeLeft (t : float) (g : Game) : Game :=
  {| score := score g; totalTime := totalTime g; timeLeft := t;
     isPlaying := isPlaying g; dolls := dolls g; document := document g;
     audio := audio g |}.

Definition with_document (d : Dom) (g : Game) : Game :=
  {| score := score g; totalTime := totalTime g; timeLeft := timeLeft g;
     isPlaying := isPlaying g; dolls := dolls g; document := d;
     audio := audio g |}.

Definition play (s : Sound) (g : Game) : Game :=
  {| score := score g; totalTime := totalTime g; timeLeft := timeLeft g;
     isPlaying := isPlaying g; dolls := dolls g; document := document g;
     audio := audio g ++ [s] |}.

Definition playHitSound (g : Game) : Game := play HitSound g.
Definition playShootSound (g : Game) : Game := play ShootSound g.

(** [constructor] *)
Definition constructor (page : Dom) : Game :=
  {| score := 0; totalTime := 30; timeLeft := 30; isPlaying := false;
     dolls := []; document := page; audio := [] |}.

Definition shelfY : list float := [2; -1; -4].

(** The body of the [for] loop of [createDolls]. *)
Definition make_doll (bgWidth y : float) (layerIndex i : nat) : Pivot :=
  let count := of_nat (5 + layerIndex) in
  let spacing := (bgWidth * 0.6) / count in
  let x := (of_nat i - (count - 1) / 2) * spacing in
  let z := -12 + of_nat layerIndex * 1.5 in
  {| position := {| v3_x := x; v3_y := y - 0.6; v3_z := z |};
     rotation_x := 0;
     child :=
       {| color := nth ((i + layerIndex) mod length GameOps.colors) GameOps.colors 0%Z;
          mesh_position := {| v3_x := 0; v3_y := 0.6; v3_z := 0 |};
          userData :=
            {| isTarget := true;
               points := ((3 - Z.of_nat layerIndex) * 10)%Z;
               state := standing |} |} |}.

Definition shelf_dolls (bgWidth : float) (layer : nat * float) : list Pivot :=
  let '(layerIndex, y) := layer in
  map (make_doll bgWidth y layerIndex) (seq 0 (5 + layerIndex)).

(** [createDolls] *)
Definition createDolls (bgWidth bgHeight : float) (g : Game) : Game :=
  with_dolls
    (dolls g ++ flat_map (shelf_dolls bgWidth) (combine (seq 0 (length shelfY)) shelfY))
    g.

(** The callback [initWorld] hands to the texture loader. *)
Definition onBackgroundLoaded (imageWidth imageHeight : float) (g : Game) : Game :=
  let aspectRatio := imageWidth / imageHeight in
  let planeHeight := 20 in
  let planeWidth := planeHeight * aspectRatio in
  createDolls planeWidth planeHeight g.

(** [updateUI] *)
Definition updateUI (g : Game) : Game :=
  let d := document g in
  let pct := (timeLeft g / 60) * 100 in
  with_document
    {| score_innerText := score g;
       time_bar_scaleX := pct / 100;
       time_bar_background := if pct <? 20 then bar_red else bar_gradient;
       game_over_hidden := game_over_hidden d;
       final_score_innerText := final_score_innerText d;
       start_screen_hidden := start_screen_hidden d;
       crosshair_opacity := crosshair_opacity d;
       crosshair_left := crosshair_left d;
       crosshair_top := crosshair_top d;
       crosshair_shooting := crosshair_shooting d |}
    g.

(** [endGame] *)
Definition endGame (g : Game) : Game :=
  let d := document g in
  {| score := score g; totalTime := totalTime g; timeLeft := timeLeft g;
     isPlaying := false; dolls := dolls g;
     document :=
       {| score_innerText := score_innerText d;
          time_bar_scaleX := time_bar_scaleX d;
          time_bar_background := time_bar_background d;
          game_over_hidden := false;
          final_score_innerText := score g;
          start_screen_hidden := start_screen_hidden d;
          crosshair_opacity := 0;
          crosshair_left := crosshair_left d;
          crosshair_top := crosshair_top d;
          crosshair_shooting := crosshair_shooting d |};
     audio := audio g |}.

Definition reset_doll (p : Pivot) : Pivot :=
  {| position := position p; rotation_x := 0;
     child := set_userData_state standing (child p) |}.

(** [start] *)
Definition start (g : Game) : Game :=
  let g1 :=
    {| score := 0; totalTime := totalTime g; timeLeft := totalTime g;
       isPlaying := true; dolls := dolls g; document := document g;
       audio := audio g |} in
  let g2 := updateUI g1 in
  with_dolls (map reset_doll (dolls g2)) g2.

(** The body of the [forEach] of [update]. *)
Definition fall_doll (dt : float) (p : Pivot) : Pivot :=
  match doll_state p with
  | falling =>
      let fallSpeed := 5 * dt in
      let r := rotation_x p - fallSpeed in
      if r <? - Math_PI / 2
      then {| position := position p; rotation_x := - Math_PI / 2;
              child := set_userData_state fallen (child p) |}
      else {| position := position p; rotation_x := r; child := child p |}
  | _ => p
  end.

(** [update] *)
Definition update (dt : float) (g : Game) : Game :=
  if negb (isPlaying g) then g
  else
    let g1 := with_timeLeft (timeLeft g - dt) g in
    let g2 := if timeLeft g1 <=? 0 then endGame (with_timeLeft 0 g1) else g1 in
    let g3 := with_dolls (map (fall_doll dt) (dolls g2)) g2 in
    updateUI g3.

Definition knock (p : Pivot) : Pivot :=
  {| position := position p; rotation_x := rotation_x p;
     child := set_userData_state falling (child p) |}.

Definition hit (i : nat) (p : Pivot) (g : Game) : Game :=
  playHitSound
    {| score := (score g + doll_points p)%Z; totalTime := totalTime g;
       timeLeft := timeLeft g; isPlaying := isPlaying g;
       dolls := alter knock i (dolls g); document := document g;
       audio := audio g |}.

(** [shoot], for a given scene query. *)
Definition shoot (intersectObjects : Vector2 -> list Pivot -> list Intersection)
    (ndc : Vector2) (g : Game) : option bool * Game :=
  if negb (isPlaying g) then (None, g)
  else
    let intersects := intersectObjects ndc (dolls g) in
    match intersects with
    | i0 :: _ =>
        match dolls g !! object i0 with
        | Some hitObj =>
            match doll_state hitObj with
            | standing => (Some true, hit (object i0) hitObj g)
            | _ => (Some false, playShootSound g)
            end
        | None => (Some false, playShootSound g)
        end
    | [] => (Some false, playShootSound g)
    end.

Fixpoint run_updates (dts : list float) (g : Game) : Game :=
  match dts with
  | [] => g
  | dt :: dts' => run_updates dts' (update dt g)
  end.


(** *** Sample inputs *)

Definition page0 : Dom :=
  {| score_innerText := 0; time_bar_scaleX := 1;
     time_bar_background := bar_gradient;
     game_over_hidden := true; final_score_innerText := 0;
     start_screen_hidden := false;
     crosshair_opacity := 0; crosshair_left := 0; crosshair_top := 0;
     crosshair_shooting := false |}.

(** The ray query of [Samples.left_ray]. *)
Definition left_ray (ndc : Vector2) (ds : list Pivot) : list Intersection :=
  if v2_x ndc <? 0 then
    List.filter (fun i => (object i <? length ds)%nat)
      [ {| distance := 10; object := 0%nat |};
        {| distance := 13; object := 5%nat |} ]
  else [].

Definition aim_left : Vector2 := {| v2_x := -0.5; v2_y := 0.2 |}.

(** A match in progress in a world built for a 1600 x 900 background. *)
Definition playing0 : Game :=
  start (onBackgroundLoaded 1600 900 (constructor page0)).


(** A fifth of the terminal angle: [5 * tenth_turn] is exactly
    [Math.PI / 2]. *)
Definition tenth_turn : float := 0x1.41b2f769cf0e0p-2.

End Doubles.

(** * Properties *)

(** ** Comparisons *)

Lemma Qlt_bool_iff (a b : Q) : Qlt_bool a b = true <-> (a < b)%Q.
Proof.
  unfold Qlt_bool. rewrite negb_true_iff, <- not_true_iff_false, Qle_bool_iff.
  split; [apply Qnot_le_lt | apply Qlt_not_le].
Qed.

Lemma Qlt_bool_false_iff (a b : Q) : Qlt_bool a b = false <-> (b <= a)%Q.
Proof.
  unfold Qlt_bool. rewrite negb_false_iff. apply Qle_bool_iff.
Qed.

Lemma Qle_bool_false_iff (a b : Q) : Qle_bool a b = false <-> (b < a)%Q.
Proof.
  rewrite <- not_true_iff_false, Qle_bool_iff.
  split; [apply Qnot_le_lt | apply Qlt_not_le].
Qed.

Module GameFacts.

Import GameOps Runs Samples.
Local Open Scope Q_scope.

(** ** What each method leaves alone *)

Lemma update_not_playing (dt : Q) (g : Game) :
  isPlaying g = false -> update dt g = g.
Proof. intros H. unfold update. now rewrite H. Qed.

Lemma update_dolls (dt : Q) (g : Game) :
  dolls (update dt g) = if isPlaying g then map (fall_doll dt) (dolls g) else dolls g.
Proof.
  unfold update. destruct (isPlaying g); simpl; [|reflexivity].
  destruct (Qle_bool (timeLeft g - dt) 0); reflexivity.
Qed.

Lemma update_score (dt : Q) (g : Game) : score (update dt g) = score g.
Proof.
  unfold update. destruct (isPlaying g); simpl; [|reflexivity].
  destruct (Qle_bool (timeLeft g - dt) 0); reflexivity.
Qed.

Lemma update_totalTime (dt : Q) (g : Game) : totalTime (update dt g) = totalTime g.
Proof.
  unfold update. destruct (isPlaying g); simpl; [|reflexivity].
  destruct (Qle_bool (timeLeft g - dt) 0); reflexivity.
Qed.

Lemma update_timeLeft (dt : Q) (g : Game) :
  isPlaying g = true ->
  timeLeft (update dt g) = if Qle_bool (timeLeft g - dt) 0 then 0 else timeLeft g - dt.
Proof.
  intros H. unfold update. rewrite H. simpl.
  destruct (Qle_bool (timeLeft g - dt) 0); reflexivity.
Qed.

Lemma update_isPlaying (dt : Q) (g : Game) :
  isPlaying g = true ->
  isPlaying (update dt g) = negb (Qle_bool (timeLeft g - dt) 0).
Proof.
  intros H. unfold update. rewrite H. simpl.
  destruct (Qle_bool (timeLeft g - dt) 0); simpl; [reflexivity | exact H].
Qed.

(** ** Relating a list of dolls to its image *)

Lemma Forall2_same {A : Type} (R : A -> A -> Prop) (l : list A) :
  (forall x, R x x) -> Forall2 R l l.
Proof. intros HR. induction l; constructor; auto. Qed.

Lemma Forall2_map_self {A : Type} (R : A -> A -> Prop) (f : A -> A) (l : list A) :
  (forall x, R x (f x)) -> Forall2 R l (map f l).
Proof. intros HR. induction l; simpl; constructor; auto. Qed.

Lemma Forall2_alter_self {A : Type} (R : A -> A -> Prop) (f : A -> A) (i : nat) (l : list A) :
  (forall x, R x x) ->
  (forall x, l !! i = Some x -> R x (f x)) ->
  Forall2 R l (alter f i l).
Proof.
  intros Hrefl. revert i. induction l as [|a l IH]; intros [|i] Hi; simpl.
  - constructor.
  - constructor.
  - constructor; [apply Hi; reflexivity | apply Forall2_same, Hrefl].
  - constructor; [apply Hrefl | apply IH; intros x Hx; apply Hi, Hx].
Qed.

(** ** The clock of a match *)









Section Raycasting.

Variable intersectObjects : Vector2 -> list Pivot -> list Intersection.

Local Abbreviation shoot := (GameOps.shoot intersectObjects).
Local Abbreviation step := (Runs.step intersectObjects).
Local Abbreviation run := (Runs.run intersectObjects).

(** The three ways a shot can end. *)
Lemma shoot_cases (ndc : Vector2) (g : Game) :
  shoot ndc g = (None, g) \/
  shoot ndc g = (Some false, playShootSound g) \/
  exists i0 rest hitObj,
    intersectObjects ndc (dolls g) = i0 :: rest /\
    dolls g !! object i0 = Some hitObj /\
    doll_state hitObj = standing /\
    shoot ndc g = (Some true, hit (object i0) hitObj g).
Proof.
  unfold GameOps.shoot. destruct (isPlaying g); simpl; [|now left].
  destruct (intersectObjects ndc (dolls g)) as [|i0 rest] eqn:Hi; [now right; left|].
  destruct (dolls g !! object i0) as [hitObj|] eqn:Hl; [|now right; left].
  destruct (doll_state hitObj) eqn:Hs; try (now right; left).
  right; right. exists i0, rest, hitObj. auto.
Qed.

Lemma shoot_totalTime (ndc : Vector2) (g : Game) :
  totalTime (snd (shoot ndc g)) = totalTime g.
Proof.
  destruct (shoot_cases ndc g) as [H|[H|(i0 & rest & p & _ & _ & _ & H)]];
    rewrite H; reflexivity.
Qed.

Lemma shoot_timeLeft (ndc : Vector2) (g : Game) :
  timeLeft (snd (shoot ndc g)) = timeLeft g.
Proof.
  destruct (shoot_cases ndc g) as [H|[H|(i0 & rest & p & _ & _ & _ & H)]];
    rewrite H; reflexivity.
Qed.

Lemma shoot_isPlaying (ndc : Vector2) (g : Game) :
  isPlaying (snd (shoot ndc g)) = isPlaying g.
Proof.
  destruct (shoot_cases ndc g) as [H|[H|(i0 & rest & p & _ & _ & _ & H)]];
    rewrite H; reflexivity.
Qed.

Lemma step_totalTime (op : Op) (g : Game) : totalTime (step op g) = totalTime g.
Proof.
  destruct op; simpl; [reflexivity | apply update_totalTime | apply shoot_totalTime | reflexivity].
Qed.

Lemma run_totalTime (ops : list Op) (g : Game) : totalTime (run ops g) = totalTime g.
Proof.
  revert g. induction ops as [|op ops IH]; intros g; simpl; [reflexivity|].
  now rewrite IH, step_totalTime.
Qed.

(** ** What survives of a doll when it is reset *)

Lemma reset_fall_doll (dt : Q) (p : Pivot) : reset_doll (fall_doll dt p) = reset_doll p.
Proof.
  unfold fall_doll. destruct (doll_state p); try reflexivity.
  destruct (Qlt_bool _ _); reflexivity.
Qed.

Lemma reset_knock (p : Pivot) : reset_doll (knock p) = reset_doll p.
Proof. reflexivity. Qed.

Lemma map_alter_absorb {A B : Type} (f : A -> B) (k : A -> A) (i : nat) (l : list A) :
  (forall a, f (k a) = f a) -> map f (alter k i l) = map f l.
Proof.
  intros Hk. revert i. induction l as [|a l IH]; intros [|i]; simpl; try reflexivity.
  - now rewrite Hk.
  - f_equal. apply IH.
Qed.

Lemma shoot_reset_dolls (ndc : Vector2) (g : Game) :
  map reset_doll (dolls (snd (shoot ndc g))) = map reset_doll (dolls g).
Proof.
  destruct (shoot_cases ndc g) as [H|[H|(i0 & rest & p & _ & _ & _ & H)]];
    rewrite H; simpl; try reflexivity.
  apply map_alter_absorb, reset_knock.
Qed.

Lemma update_reset_dolls (dt : Q) (g : Game) :
  map reset_doll (dolls (update dt g)) = map reset_doll (dolls g).
Proof.
  rewrite update_dolls. destruct (isPlaying g); [|reflexivity].
  rewrite map_map. apply map_ext, reset_fall_doll.
Qed.

Lemma start_dolls (g : Game) : dolls (start g) = map reset_doll (dolls g).
Proof. reflexivity. Qed.

Lemma start_timeLeft (g : Game) : timeLeft (start g) = totalTime g.
Proof. reflexivity. Qed.

Lemma run_play_reset_dolls (ops : list Op) (g : Game) :
  forallb is_play_op ops = true ->
  map reset_doll (dolls (run ops g)) = map reset_doll (dolls g).
Proof.
  revert g. induction ops as [|op ops IH]; intros g Hops; simpl in *; [reflexivity|].
  apply andb_true_iff in Hops as [Hop Hops]. rewrite (IH _ Hops).
  destruct op; simpl in Hop; try discriminate; simpl.
  - apply update_reset_dolls.
  - apply shoot_reset_dolls.
Qed.


(** ** Point values never change *)

Lemma points_fall_doll (dt : Q) (p : Pivot) : doll_points (fall_doll dt p) = doll_points p.
Proof.
  unfold fall_doll. destruct (doll_state p); try reflexivity.
  destruct (Qlt_bool _ _); reflexivity.
Qed.

Lemma step_points (op : Op) (g : Game) :
  exists extra,
    map doll_points (dolls (step op g)) = map doll_points (dolls g) ++ extra /\
    (is_load_op op = false -> extra = []) /\
    (is_load_op op = true -> extra = world_points).
Proof.
  destruct op as [|dt|ndc|w h]; simpl.
  - exists []. rewrite app_nil_r, map_map. repeat split; try discriminate.
  - exists []. rewrite app_nil_r, update_dolls. repeat split; try discriminate.
    destruct (isPlaying g); [|reflexivity].
    rewrite map_map. apply map_ext, points_fall_doll.
  - exists []. rewrite app_nil_r. repeat split; try discriminate.
    destruct (shoot_cases ndc g) as [H|[H|(i0 & rest & p & _ & _ & _ & H)]];
      rewrite H; simpl; try reflexivity.
    now apply map_alter_absorb.
  - exists world_points. rewrite map_app. repeat split; try discriminate.
Qed.

Lemma run_points (ops : list Op) (g : Game) :
  exists extra,
    map doll_points (dolls (run ops g)) = map doll_points (dolls g) ++ extra /\
    (loads ops = 0%nat -> extra = []) /\
    (loads ops = 1%nat -> extra = world_points).
Proof.
  revert g. induction ops as [|op ops IH]; intros g.
  - exists []. simpl. rewrite app_nil_r. repeat split; auto; discriminate.
  - simpl run. destruct (IH (step op g)) as (extra2 & Hmap2 & Hnone2 & Hone2).
    destruct (step_points op g) as (extra1 & Hmap1 & Hnone1 & Hone1).
    exists (extra1 ++ extra2). rewrite Hmap2, Hmap1, <- app_assoc.
    split; [reflexivity|]. unfold loads in *. simpl.
    destruct (is_load_op op); simpl.
    + split; [discriminate|]. intros H. injection H as H.
      now rewrite (Hone1 eq_refl), (Hnone2 H), app_nil_r.
    + split; intros H; rewrite (Hnone1 eq_refl); simpl; auto.
Qed.

(** ** The score invariant *)

Lemma knocked_value_reset (ds : list Pivot) : knocked_value (map reset_doll ds) = 0%Z.
Proof. induction ds as [|p ds IH]; simpl; [reflexivity | exact IH]. Qed.

Lemma knocked_value_fall (dt : Q) (ds : list Pivot) :
  knocked_value (map (fall_doll dt) ds) = knocked_value ds.
Proof.
  induction ds as [|p ds IH]; simpl; [reflexivity|]. rewrite IH. f_equal.
  unfold fall_doll. destruct (doll_state p) eqn:Hs; try (rewrite Hs; reflexivity).
  destruct (Qlt_bool _ _); [reflexivity|].
  change (doll_state _) with (doll_state p). rewrite Hs. reflexivity.
Qed.

Lemma knocked_value_knock (i : nat) (p : Pivot) (ds : list Pivot) :
  ds !! i = Some p -> doll_state p = standing ->
  knocked_value (alter knock i ds) = (knocked_value ds + doll_points p)%Z.
Proof.
  revert i. induction ds as [|q ds IH]; intros [|i] Hlook Hs; simpl in *; try discriminate.
  - injection Hlook as ->. rewrite Hs. change (doll_points (knock p)) with (doll_points p).
    lia.
  - change (list_alter knock i ds) with (alter knock i ds).
    rewrite (IH i Hlook Hs). lia.
Qed.

Lemma knocked_value_app (ds1 ds2 : list Pivot) :
  knocked_value (ds1 ++ ds2) = (knocked_value ds1 + knocked_value ds2)%Z.
Proof. induction ds1 as [|p ds1 IH]; simpl; [reflexivity | rewrite IH; lia]. Qed.

Lemma step_score_invariant (op : Op) (g : Game) :
  score g = knocked_value (dolls g) ->
  score (step op g) = knocked_value (dolls (step op g)).
Proof.
  intros Hinv. destruct op as [|dt|ndc|w h]; simpl.
  - now rewrite knocked_value_reset.
  - rewrite update_score, update_dolls, Hinv.
    destruct (isPlaying g); [now rewrite knocked_value_fall | reflexivity].
  - destruct (shoot_cases ndc g) as [H|[H|(i0 & rest & p & _ & Hlook & Hs & H)]];
      rewrite H; simpl; try exact Hinv.
    now rewrite (knocked_value_knock _ _ _ Hlook Hs), Hinv.
  - rewrite knocked_value_app, Hinv. simpl. lia.
Qed.

Lemma run_score_invariant (ops : list Op) (g : Game) :
  score g = knocked_value (dolls g) ->
  score (run ops g) = knocked_value (dolls (run ops g)).
Proof.
  revert g. induction ops as [|op ops IH]; intros g Hinv; simpl; [exact Hinv|].
  apply IH, step_score_invariant, Hinv.
Qed.

Lemma knocked_value_bounds (ds : list Pivot) :
  Forall (fun v => (0 <= v)%Z /\ (10 | v)%Z) (map doll_points ds) ->
  (0 <= knocked_value ds <= sum_points (map doll_points ds))%Z /\
  (10 | knocked_value ds)%Z.
Proof.
  induction ds as [|p ds IH]; simpl; intros Hall.
  - split; [lia | apply Z.divide_0_r].
  - apply Forall_cons in Hall as [[Hpos Hdiv] Hall].
    destruct (IH Hall) as [Hbound Hten].
    destruct (doll_state p); split;
      try lia; try (apply Z.divide_add_r; assumption); simpl; exact Hten.
Qed.

End Raycasting.

End GameFacts.

(** ** The match and its targets *)

Module MatchSpec.

Import GameOps Runs Samples GameFacts.
Local Open Scope Q_scope.

Section Raycasting.

Variable intersectObjects : Vector2 -> list Pivot -> list Intersection.

Local Abbreviation shoot := (GameOps.shoot intersectObjects).
Local Abbreviation step := (Runs.step intersectObjects).
Local Abbreviation run := (Runs.run intersectObjects).

(** C7: a call of [shoot] while [isPlaying] is false is a no-op that
    reports no hit: it returns at once with no value, and the game (its
    score and the state of every target included) is left as it was. *)
Theorem shoot_not_playing_noop (ndc : Vector2) (g : Game) :
  isPlaying g = false ->
  shoot ndc g = (None, g) /\
  fst (shoot ndc g) <> Some true /\
  score (snd (shoot ndc g)) = score g /\
  map doll_state (dolls (snd (shoot ndc g))) = map doll_state (dolls g).
Proof.
  intros Hidle.
  assert (Hnoop : shoot ndc g = (None, g)).
  { unfold GameOps.shoot. now rewrite Hidle. }
  rewrite Hnoop. simpl. repeat split; congruence.
Qed.

(** C6: [start] establishes, from any prior state, score 0, the full match
    time on the clock, a match in progress, and every target standing with
    fall rotation 0.  Starting twice is the same as starting once; whatever
    was played since the last start, starting again gives the same score,
    clock and targets; and in every state the program can reach the clock
    is set to 30 seconds. *)
Theorem start_resets_match (g : Game) :
  score (start g) = 0%Z /\
  timeLeft (start g) = totalTime g /\
  isPlaying (start g) = true /\
  Forall (fun p => doll_state p = standing /\ rotation_x p = 0) (dolls (start g)) /\
  length (dolls (start g)) = length (dolls g) /\
  start (start g) = start g /\
  (forall played : list Op,
     forallb is_play_op played = true ->
     let g' := start (run played (start g)) in
     score g' = score (start g) /\ timeLeft g' = timeLeft (start g) /\
     isPlaying g' = isPlaying (start g) /\ dolls g' = dolls (start g)) /\
  (forall (page : Dom) (ops : list Op),
     timeLeft (start (run ops (constructor page))) = 30).
Proof.
  repeat split.
  - rewrite start_dolls. apply List.Forall_forall. intros p Hp.
    apply in_map_iff in Hp as (q & <- & _). split; reflexivity.
  - rewrite start_dolls. apply length_map.
  - unfold start. simpl. rewrite map_map. reflexivity.
  - rewrite !start_timeLeft. now rewrite run_totalTime.
  - rewrite !start_dolls, (run_play_reset_dolls _ _ _ H), start_dolls, map_map.
    reflexivity.
  - intros page ops. rewrite start_timeLeft. now rewrite run_totalTime.
Qed.

(** C4: the state of a target only moves forward along standing, falling,
    fallen.  A [shoot] leaves each target's state as it was or takes it
    from standing to falling; an [update] leaves it as it was or takes it
    from falling to fallen; [start] makes every target standing.  Hence
    over any sequence of [update] and [shoot] calls no target's state moves
    backward, and a target that is not standing never stands again. *)
Theorem target_state_only_advances (g : Game) :
  (forall ndc,
     Forall2 (fun p p' =>
                doll_state p' = doll_state p \/
                (doll_state p = standing /\ doll_state p' = falling))
             (dolls g) (dolls (snd (shoot ndc g)))) /\
  (forall dt,
     Forall2 (fun p p' =>
                doll_state p' = doll_state p \/
                (doll_state p = falling /\ doll_state p' = fallen))
             (dolls g) (dolls (update dt g))) /\
  Forall2 (fun p p' => doll_state p' = standing) (dolls g) (dolls (start g)) /\
  (forall ops,
     forallb is_play_op ops = true ->
     Forall2 (fun p p' =>
                (state_rank (doll_state p) <= state_rank (doll_state p'))%nat /\
                (doll_state p <> standing -> doll_state p' <> standing))
             (dolls g) (dolls (run ops g))).
Proof.
  assert (Hshoot : forall g ndc,
     Forall2 (fun p p' =>
                doll_state p' = doll_state p \/
                (doll_state p = standing /\ doll_state p' = falling))
             (dolls g) (dolls (snd (shoot ndc g)))).
  { intros g0 ndc.
    destruct (shoot_cases intersectObjects ndc g0)
      as [H|[H|(i0 & rest & hitObj & _ & Hlook & Hstate & H)]]; rewrite H; simpl.
    - apply Forall2_same. auto.
    - apply Forall2_same. auto.
    - apply Forall2_alter_self; [auto|].
      intros x Hx. rewrite Hlook in Hx. injection Hx as <-. right. auto. }
  assert (Hupdate : forall g dt,
     Forall2 (fun p p' =>
                doll_state p' = doll_state p \/
                (doll_state p = falling /\ doll_state p' = fallen))
             (dolls g) (dolls (update dt g))).
  { intros g0 dt. rewrite update_dolls. destruct (isPlaying g0).
    - apply Forall2_map_self. intros p. unfold fall_doll.
      destruct (doll_state p) eqn:Hs; auto.
      destruct (Qlt_bool _ _); [right; split; reflexivity | left; exact Hs].
    - apply Forall2_same. auto. }
  split; [apply Hshoot|]. split; [apply Hupdate|]. split.
  - rewrite start_dolls. apply Forall2_map_self. reflexivity.
  - intros ops. revert g. induction ops as [|op ops IH]; intros g Hops; simpl in *.
    + apply Forall2_same. intros p. split; [lia | auto].
    + apply andb_true_iff in Hops as [Hop Hops].
      specialize (IH (step op g) Hops).
      assert (Hstep :
        Forall2 (fun p p' =>
                   (state_rank (doll_state p) <= state_rank (doll_state p'))%nat /\
                   (doll_state p <> standing -> doll_state p' <> standing))
                (dolls g) (dolls (step op g))).
      { destruct op as [|dt|ndc|w h]; simpl in Hop; try discriminate; simpl.
        - eapply Forall2_impl; [apply Hupdate|]. simpl.
          intros p p' [->|[-> ->]]; simpl; split; (lia || congruence).
        - eapply Forall2_impl; [apply Hshoot|]. simpl.
          intros p p' [->|[-> ->]]; simpl; split; (lia || congruence). }
      eapply Forall2_trans; [|exact Hstep|exact IH].
      simpl. intros p q r [H1 H2] [H3 H4]. split; [lia | auto].
Qed.

(** C10: in every state the program reaches, the score is the sum of the
    point values of the targets that are not standing.  The background
    texture being loaded at most once, the score is therefore a multiple
    of 10 between 0 and 340, the value of all 18 targets together. *)
Theorem score_is_value_of_knocked_targets (page : Dom) (ops : list Op) :
  (loads ops <= 1)%nat ->
  let g := run ops (constructor page) in
  score g = knocked_value (dolls g) /\
  (10 | score g)%Z /\
  (0 <= score g <= 340)%Z /\
  sum_points world_points = 340%Z /\
  length world_points = 18%nat.
Proof.
  intros Hloads g.
  assert (Hinv : score g = knocked_value (dolls g)).
  { apply run_score_invariant. reflexivity. }
  destruct (run_points intersectObjects ops (constructor page)) as (extra & Hmap & Hnone & Hone).
  fold g in Hmap. simpl in Hmap.
  assert (Hextra : extra = [] \/ extra = world_points).
  { destruct (loads ops) as [|[|n]]; [left; auto | right; auto | lia]. }
  assert (Hall : Forall (fun v => (0 <= v)%Z /\ (10 | v)%Z) (map doll_points (dolls g)) /\
                 (sum_points (map doll_points (dolls g)) <= 340)%Z).
  { rewrite Hmap. destruct Hextra as [-> | ->]; split; simpl; try lia.
    - constructor.
    - repeat (constructor; [split; [lia|]; first
        [ exists 3%Z; reflexivity | exists 2%Z; reflexivity | exists 1%Z; reflexivity ] |]).
      constructor. }
  destruct Hall as [Hall Hsum].
  destruct (knocked_value_bounds _ Hall) as [Hbound Hten].
  rewrite Hinv. repeat split; try assumption; try lia.
Qed.


Section SceneQuery.

(** What the rendering library promises of its ray query: the
    intersections it returns are ordered nearest first, and every object in
    them is one of the objects it was asked about. *)
Hypothesis intersect_sorted :
  forall ndc ds, nearest_first (intersectObjects ndc ds) = true.
Hypothesis intersect_in_range :
  forall ndc ds, Forall (fun i => (object i < length ds)%nat) (intersectObjects ndc ds).

(** C1: while the match is playing, [shoot] looks only at the first
    intersection, which is the nearest one.  If there is none the shot is
    a miss.  If the nearest target is standing, it becomes falling, exactly
    its point value is added to the score, every other target is left as
    it was, and [true] is returned; a later shot whose nearest target is
    that same one is a miss.  If the nearest target is falling or fallen
    the shot is a miss.  A miss returns [false] and changes neither the
    score nor any target. *)
Theorem shoot_resolves_nearest_target (ndc : Vector2) (g : Game) :
  isPlaying g = true ->
  match intersectObjects ndc (dolls g) with
  | [] => shoot ndc g = (Some false, playShootSound g)
  | i0 :: rest =>
      Forall (fun j => distance i0 <= distance j) rest /\
      exists hitObj,
        dolls g !! object i0 = Some hitObj /\
        match doll_state hitObj with
        | standing =>
            let g' := snd (shoot ndc g) in
            fst (shoot ndc g) = Some true /\
            score g' = (score g + doll_points hitObj)%Z /\
            dolls g' !! object i0 = Some (knock hitObj) /\
            doll_state (knock hitObj) = falling /\
            (forall j, j <> object i0 -> dolls g' !! j = dolls g !! j) /\
            length (dolls g') = length (dolls g) /\
            (forall ndc2 j0 rest2,
               intersectObjects ndc2 (dolls g') = j0 :: rest2 ->
               object j0 = object i0 ->
               shoot ndc2 g' = (Some false, playShootSound g'))
        | _ => shoot ndc g = (Some false, playShootSound g)
        end
  end /\
  score (playShootSound g) = score g /\
  dolls (playShootSound g) = dolls g.
Proof.
  intros Hplay. split; [|split; reflexivity].
  pose proof (intersect_sorted ndc (dolls g)) as Hsorted.
  pose proof (intersect_in_range ndc (dolls g)) as Hrange.
  unfold GameOps.shoot. rewrite Hplay. simpl negb. cbv iota.
  destruct (intersectObjects ndc (dolls g)) as [|i0 rest]; [reflexivity|].
  split.
  - simpl in Hsorted. apply andb_true_iff in Hsorted as [Hhead _].
    apply List.Forall_forall. intros j Hj.
    rewrite forallb_forall in Hhead. apply Qle_bool_iff, Hhead, Hj.
  - apply Forall_cons in Hrange as [Hi0 _].
    destruct (lookup_lt_is_Some_2 _ _ Hi0) as [hitObj Hlook].
    exists hitObj. split; [exact Hlook|]. rewrite Hlook.
    destruct (doll_state hitObj) eqn:Hstate; try reflexivity.
    cbv zeta. simpl fst. simpl snd.
    assert (Hknocked : dolls (hit (object i0) hitObj g) !! object i0 = Some (knock hitObj)).
    { simpl. now rewrite list_lookup_alter_eq, Hlook. }
    repeat split.
    + exact Hknocked.
    + intros j Hj. simpl. apply list_lookup_alter_ne. congruence.
    + simpl. apply length_alter.
    + intros ndc2 j0 rest2 Hhit Hsame.
      change (isPlaying (hit (object i0) hitObj g)) with (isPlaying g).
      rewrite Hplay. simpl negb. cbv iota.
      rewrite Hhit, Hsame, Hknocked. reflexivity.
Qed.

End SceneQuery.

End Raycasting.

(** C9: the scale [updateUI] gives the time bar is [timeLeft / 60], whatever
    the total match time is.  For the 30-second match the constructor sets
    up, the bar therefore shows one half when a match starts, while the
    fraction of match time remaining, [timeLeft / totalTime], is 1 at that
    moment. *)
Theorem time_bar_scale_is_timeLeft_over_60 (page : Dom) :
  (forall g : Game, time_bar_scaleX (document (updateUI g)) == timeLeft g / 60) /\
  time_bar_scaleX (document (start (constructor page))) == 1 # 2 /\
  timeLeft (start (constructor page)) / totalTime (start (constructor page)) == 1 /\
  ~ time_bar_scaleX (document (start (constructor page))) == 1.
Proof.
  split; [|split; [|split]].
  - intros g. unfold updateUI. simpl. field.
  - reflexivity.
  - reflexivity.
  - discriminate.
Qed.

(** C8: the point value of a target is fixed when [createDolls] makes it,
    as ten times the row of its shelf counted from the bottom: 30 on the
    top shelf, 20 on the middle one, 10 on the bottom one, so that of two
    targets the one on the higher shelf is worth strictly more.  No method
    of the game changes a point value afterwards. *)
Theorem doll_points_by_shelf (bgWidth bgHeight : Q) (page : Dom) :
  let ds := created bgWidth bgHeight page in
  map doll_points ds = world_points /\
  Forall (fun p => doll_points p = (rowsFromBottom p * 10)%Z) ds /\
  Forall (fun p =>
            (doll_height p == 2 /\ doll_points p = 30%Z) \/
            (doll_height p == -1 /\ doll_points p = 20%Z) \/
            (doll_height p == -4 /\ doll_points p = 10%Z)) ds /\
  (forall p q, In p ds -> In q ds ->
     doll_height p < doll_height q -> (doll_points p < doll_points q)%Z) /\
  (forall intersectObjects (op : Op) (g : Game),
     is_load_op op = false ->
     map doll_points (dolls (step intersectObjects op g)) = map doll_points (dolls g)).
Proof.
  assert (Hshelves :
    Forall (fun p =>
              (doll_height p == 2 /\ doll_points p = 30%Z) \/
              (doll_height p == -1 /\ doll_points p = 20%Z) \/
              (doll_height p == -4 /\ doll_points p = 10%Z))
           (created bgWidth bgHeight page)).
  { unfold created, createDolls. simpl.
    repeat (constructor; [first
      [ left; split; reflexivity
      | right; left; split; reflexivity
      | right; right; split; reflexivity ] |]).
    constructor. }
  cbv zeta. split; [reflexivity|]. split; [|split; [exact Hshelves|split]].
  - unfold created, createDolls. simpl.
    repeat (constructor; [reflexivity|]). constructor.
  - intros p q Hp Hq Hlt.
    rewrite List.Forall_forall in Hshelves.
    destruct (Hshelves p Hp) as [[Ep Vp]|[[Ep Vp]|[Ep Vp]]];
      destruct (Hshelves q Hq) as [[Eq Vq]|[[Eq Vq]|[Eq Vq]]];
      rewrite Ep, Eq in Hlt; rewrite Vp, Vq; try lia; exfalso; lra.
  - intros R op g Hop.
    destruct (step_points R op g) as (extra & Hmap & Hnone & _).
    now rewrite Hmap, (Hnone Hop), app_nil_r.
Qed.




Lemma left_ray_sorted (ndc : Vector2) (ds : list Pivot) :
  nearest_first (left_ray ndc ds) = true.
Proof.
  unfold left_ray. destruct (Qlt_bool (v2_x ndc) 0); [|reflexivity]. simpl.
  destruct (0 <? length ds)%nat, (5 <? length ds)%nat; reflexivity.
Qed.

Lemma left_ray_in_range (ndc : Vector2) (ds : list Pivot) :
  Forall (fun i => (object i < length ds)%nat) (left_ray ndc ds).
Proof.
  unfold left_ray. destruct (Qlt_bool (v2_x ndc) 0); [|constructor]. simpl.
  destruct (0 <? length ds)%nat eqn:H0, (5 <? length ds)%nat eqn:H5;
    repeat constructor; simpl;
    try (apply Nat.ltb_lt in H0; exact H0); try (apply Nat.ltb_lt in H5; exact H5).
Qed.

Lemma shoot_resolves_nearest_target_witness :
  isPlaying playing0 = true /\
  fst (GameOps.shoot left_ray aim_left playing0) = Some true /\
  score (snd (GameOps.shoot left_ray aim_left playing0)) = 30%Z.
Proof.
  split; [reflexivity|].
  pose proof (shoot_resolves_nearest_target left_ray left_ray_sorted left_ray_in_range
                aim_left playing0 eq_refl) as [Hshot _].
  change (left_ray aim_left (dolls playing0))
    with [ {| distance := 10; object := 0%nat |};
           {| distance := 13; object := 5%nat |} ] in Hshot.
  destruct Hshot as [_ (hitObj & Hlook & Hhit)].
  vm_compute in Hlook. injection Hlook as <-.
  destruct Hhit as (Hres & Hscore & _).
  split; [exact Hres | exact Hscore].
Defined.

Lemma shoot_not_playing_noop_witness :
  isPlaying idle0 = false /\ GameOps.shoot left_ray aim_left idle0 = (None, idle0).
Proof.
  split; [reflexivity|].
  apply (shoot_not_playing_noop left_ray aim_left idle0). reflexivity.
Defined.

Lemma score_is_value_of_knocked_targets_witness :
  (loads session_ops <= 1)%nat /\
  score (run left_ray session_ops (constructor page0)) = 30%Z /\
  knocked_value (dolls (run left_ray session_ops (constructor page0))) = 30%Z.
Proof.
  assert (Hloads : (loads session_ops <= 1)%nat) by (vm_compute; lia).
  split; [exact Hloads|].
  destruct (score_is_value_of_knocked_targets left_ray page0 session_ops Hloads)
    as [Hscore _].
  split; [reflexivity|]. rewrite <- Hscore. reflexivity.
Defined.


End MatchSpec.

(** ** The pinch gesture *)

Module PinchSpec.

Import GameOps MainOps Runs PinchView Samples GameFacts.
Local Open Scope Q_scope.

Lemma pinch_distance_sq_nonneg (landmarks : Hand) : 0 <= pinch_distance_sq landmarks.
Proof.
  unfold pinch_distance_sq. simpl Qpower.
  set (dx := lm_x (indexTip landmarks) - lm_x (thumbTip landmarks)).
  set (dy := lm_y (indexTip landmarks) - lm_y (thumbTip landmarks)).
  nra.
Qed.

(** In exact arithmetic the test on the squares is the test on the
    distance. *)
Lemma pinch_closed_distance (landmarks : Hand) :
  pinch_closed landmarks = true <->
  Rdefinitions.Rlt (pinch_distance landmarks) (Rdefinitions.Q2R PINCH_THRESHOLD).
Proof.
  unfold pinch_closed, pinch_distance. rewrite Qlt_bool_iff.
  pose proof (pinch_distance_sq_nonneg landmarks) as Hnonneg.
  apply Qreals.Qle_Rle in Hnonneg.
  replace (Rdefinitions.Q2R 0) with (Rdefinitions.IZR 0) in Hnonneg
    by (unfold Rdefinitions.Q2R; simpl; Lra.lra).
  assert (Hthr : Rdefinitions.Rlt (Rdefinitions.IZR 0) (Rdefinitions.Q2R PINCH_THRESHOLD)).
  { replace (Rdefinitions.IZR 0) with (Rdefinitions.Q2R 0)
      by (unfold Rdefinitions.Q2R; simpl; Lra.lra).
    apply Qreals.Qlt_Rlt. reflexivity. }
  assert (Hsq : Rdefinitions.Q2R (PINCH_THRESHOLD ^ 2)
                = Rdefinitions.Rmult (Rdefinitions.Q2R PINCH_THRESHOLD)
                                     (Rdefinitions.Q2R PINCH_THRESHOLD)).
  { simpl Qpower. apply Qreals.Q2R_mult. }
  assert (Hroot : R_sqrt.sqrt (Rdefinitions.Rmult (Rdefinitions.Q2R PINCH_THRESHOLD)
                                                 (Rdefinitions.Q2R PINCH_THRESHOLD))
                  = Rdefinitions.Q2R PINCH_THRESHOLD).
  { apply R_sqrt.sqrt_square. apply RIneq.Rlt_le, Hthr. }
  split; intros H.
  - rewrite <- Hroot. apply R_sqrt.sqrt_lt_1_alt. split; [exact Hnonneg|].
    rewrite <- Hsq. apply Qreals.Qlt_Rlt, H.
  - apply Qreals.Rlt_Qlt. rewrite Hsq. apply R_sqrt.sqrt_lt_0_alt.
    rewrite Hroot. exact H.
Qed.

(** *** The latch on its own *)

Lemma view_detect_fires (v : View) :
  fst (view_detect v) = true ->
  v_pinching (snd (view_detect v)) = true /\ v_cooldown (snd (view_detect v)) = 0.5.
Proof.
  unfold view_detect. destruct (v_hand v) as [[[[|h hs]|]]|]; simpl; try discriminate.
  destruct (v_playing v); simpl; try discriminate.
  destruct (pinch_closed h); simpl; try discriminate.
  destruct (negb (v_pinching v) && Qle_bool (v_cooldown v) 0); simpl;
    [auto | discriminate].
Qed.

Lemma view_handle_fires (e : Event) (v : View) :
  fst (view_handle e v) = true -> v_pinching (snd (view_handle e v)) = true.
Proof.
  destruct e; simpl; try discriminate. intros H. now apply view_detect_fires.
Qed.

Lemma view_handle_latched (e : Event) (v : View) :
  v_pinching v = true -> keeps_pinch e = true ->
  fst (view_handle e v) = false /\ v_pinching (snd (view_handle e v)) = true.
Proof.
  intros Hlatch Hkeep. destruct e as [| |[[[|h hs]|]]|dt|w h]; simpl in *; auto.
  - unfold view_detect. simpl. rewrite Hkeep, Hlatch.
    destruct (v_playing v); simpl; auto.
  - unfold view_tick. destruct (v_playing v); simpl; auto.
    destruct (Qle_bool (v_timeLeft v - dt) 0); simpl; auto.
Qed.

Lemma view_run_latched (es : list Event) (v : View) :
  v_pinching v = true -> forallb keeps_pinch es = true ->
  view_run es v = repeat false (length es).
Proof.
  revert v. induction es as [|e es IH]; intros v Hlatch Hkeep; simpl in *; [reflexivity|].
  apply andb_true_iff in Hkeep as [He Hes].
  destruct (view_handle_latched e v Hlatch He) as [Hquiet Hstill].
  now rewrite Hquiet, (IH _ Hstill Hes).
Qed.

Lemma view_run_cons (e : Event) (es : list Event) (v : View) :
  view_run (e :: es) v = fst (view_handle e v) :: view_run es (snd (view_handle e v)).
Proof. reflexivity. Qed.

Lemma count_fired_quiet (n : nat) : count_fired (repeat false n) = 0%nat.
Proof. induction n; simpl; auto. Qed.

Lemma view_run_at_most_once (es : list Event) (v : View) :
  forallb keeps_pinch es = true -> (count_fired (view_run es v) <= 1)%nat.
Proof.
  revert v. induction es as [|e es IH]; intros v Hkeep; simpl in *; [unfold count_fired; simpl; lia|].
  apply andb_true_iff in Hkeep as [He Hes].
  destruct (fst (view_handle e v)) eqn:Hfired.
  - rewrite (view_run_latched es _ (view_handle_fires e v Hfired) Hes).
    unfold count_fired. simpl. fold (count_fired (repeat false (length es))).
    rewrite count_fired_quiet. lia.
  - apply (IH _ Hes).
Qed.

Section Raycasting.

Variable intersectObjects : Vector2 -> list Pivot -> list Intersection.

Local Abbreviation processGestures := (MainOps.processGestures intersectObjects).
Local Abbreviation onResults := (MainOps.onResults intersectObjects).
Local Abbreviation handle := (MainOps.handle intersectObjects).
Local Abbreviation run_events := (MainOps.run_events intersectObjects).
Local Abbreviation shots_fired := (MainOps.shots_fired intersectObjects).

(** *** The handlers act on the latch as the view says *)

Lemma processGestures_view (m : Main) :
  fst (processGestures m) = fst (view_detect (view m)) /\
  view (snd (processGestures m)) = snd (view_detect (view m)).
Proof.
  unfold MainOps.processGestures, view_detect. simpl v_hand.
  destruct (handResults m) as [[[[|h hs]|]]|] eqn:Hhand; try (split; reflexivity).
  simpl v_playing. destruct (isPlaying (game m)) eqn:Hplay; simpl negb; cbv iota;
    [|split; reflexivity].
  destruct (pinch_closed h).
  - simpl isPinching. simpl pinchCooldown. simpl v_pinching. simpl v_cooldown.
    destruct (negb (isPinching m) && Qle_bool (pinchCooldown m) 0).
    + split; [reflexivity|]. unfold view, fireShot. simpl.
      rewrite shoot_isPlaying, shoot_timeLeft, shoot_totalTime. simpl.
      now rewrite Hplay, Hhand.
    + split; [reflexivity|]. unfold view. simpl. now rewrite Hplay, Hhand.
  - split; [reflexivity|]. unfold view. simpl. now rewrite Hplay, Hhand.
Qed.

Lemma animate_view (dt : Q) (m : Main) :
  view (animate dt m) = view_tick dt (view m).
Proof.
  unfold animate, view, view_tick. simpl.
  rewrite update_totalTime.
  destruct (isPlaying (game m)) eqn:Hplay.
  - rewrite (update_isPlaying _ _ Hplay), (update_timeLeft _ _ Hplay). simpl.
    destruct (Qle_bool (timeLeft (game m) - dt) 0); reflexivity.
  - rewrite (update_not_playing _ _ Hplay), Hplay. reflexivity.
Qed.

Lemma handle_view (e : Event) (m : Main) :
  fst (handle e m) = fst (view_handle e (view m)) /\
  view (snd (handle e m)) = snd (view_handle e (view m)).
Proof.
  destruct e as [| |results|dt|w h]; simpl.
  - split; reflexivity.
  - split; reflexivity.
  - apply (processGestures_view (with_handResults (Some results) m)).
  - split; [reflexivity | apply animate_view].
  - split; reflexivity.
Qed.

Lemma run_events_view (es : list Event) (m : Main) :
  fst (run_events es m) = view_run es (view m).
Proof.
  revert m. induction es as [|e es IH]; intros m; simpl; [reflexivity|].
  destruct (handle_view e m) as [Hfired Hview].
  destruct (handle e m) as [fired m1]. simpl in Hfired, Hview.
  specialize (IH m1). destruct (run_events es m1) as [rest m2]. simpl in *.
  now rewrite <- Hfired, <- Hview, IH.
Qed.

(** C3: while no match is playing no shot is fired, whatever is detected.
    While a match is playing and a hand is detected, a shot is fired in the
    frame if and only if the pinch test passes, no pinch is latched and the
    cooldown is at most 0; the test passes for finger tips at a distance of
    0.0499 or less, whatever the direction from thumb to index finger, and
    fails at a distance of 0.0501 or more.  Firing latches the pinch and
    sets the cooldown to 0.5 s.  Over events that never show the pinch open
    at most one shot is fired, and when such a run begins with a frame
    that fires, that is its only shot.  For the samples 0.01, 0.01, 0.01,
    0.06, 0.01 with frames of 0.1 s, in a match just started (30 s on the
    clock, no pinch latched, no cooldown), exactly one shot is fired, on
    the first sample, whether the animation frame comes after or before
    each detection. *)
Theorem pinch_fire_is_debounced (m : Main) (landmarks : Hand) (others : list Hand) :
  let results := {| multiHandLandmarks := Some (landmarks :: others) |} in
  let out := onResults results m in
  (isPlaying (game m) = false ->
     forall detected : Results, fst (onResults detected m) = false) /\
  (isPlaying (game m) = true ->
     (fst out = true <->
        pinch_closed landmarks = true /\ isPinching m = false /\ pinchCooldown m <= 0)) /\
  (Rdefinitions.Rle (pinch_distance landmarks) (Rdefinitions.Q2R 0.0499) ->
     pinch_closed landmarks = true) /\
  (Rdefinitions.Rle (Rdefinitions.Q2R 0.0501) (pinch_distance landmarks) ->
     pinch_closed landmarks = false) /\
  (fst out = true ->
     isPinching (snd out) = true /\ pinchCooldown (snd out) = 0.5) /\
  (forall es, forallb keeps_pinch es = true -> (shots_fired es m <= 1)%nat) /\
  (forall es,
     forallb keeps_pinch es = true ->
     fst out = true ->
     fst (run_events (HandsResults results :: es) m) = true :: repeat false (length es) /\
     shots_fired (HandsResults results :: es) m = 1%nat) /\
  (isPlaying (game m) = true ->
   timeLeft (game m) = 30 -> isPinching m = false -> pinchCooldown m = 0 ->
     fst (run_events debounce_frames m)
       = [true; false; false; false; false; false; false; false; false; false] /\
     shots_fired debounce_frames m = 1%nat /\
     fst (run_events debounce_frames' m)
       = [false; true; false; false; false; false; false; false; false; false] /\
     shots_fired debounce_frames' m = 1%nat).
Proof.
  intros results out. subst out results.
  pose proof (pinch_closed_distance landmarks) as Hclosed.
  split; [|split; [|split; [|split; [|split; [|split; [|split]]]]]].
  - intros Hidle detected.
    unfold MainOps.onResults, MainOps.processGestures. simpl handResults.
    destruct detected as [[[|hand hands]|]]; try reflexivity.
    simpl isPlaying. rewrite Hidle. reflexivity.
  - intros Hplay.
    unfold MainOps.onResults, MainOps.processGestures. simpl handResults.
    cbv iota beta. simpl isPlaying. rewrite Hplay. simpl negb. cbv iota.
    simpl isPinching. simpl pinchCooldown.
    rewrite <- Qle_bool_iff.
    destruct (pinch_closed landmarks), (isPinching m), (Qle_bool (pinchCooldown m) 0);
      simpl;
      (split;
       [ intros H; try discriminate H; repeat split; reflexivity
       | intros (H1 & H2 & H3); try discriminate H1; try discriminate H2;
         try discriminate H3; reflexivity ]).
  - intros Hnear. apply Hclosed.
    apply (RIneq.Rle_lt_trans _ _ _ Hnear), Qreals.Qlt_Rlt. reflexivity.
  - intros Hfar. destruct (pinch_closed landmarks); [|reflexivity].
    exfalso. apply (RIneq.Rlt_irrefl (Rdefinitions.Q2R PINCH_THRESHOLD)).
    apply Raxioms.Rlt_trans with (Rdefinitions.Q2R 0.0501);
      [apply Qreals.Qlt_Rlt; reflexivity|].
    apply (RIneq.Rle_lt_trans _ _ _ Hfar), Hclosed. reflexivity.
  - intros Hfired.
    destruct (processGestures_view
                (with_handResults
                   (Some {| multiHandLandmarks := Some (landmarks :: others) |}) m))
      as [Hfst Hsnd].
    change (MainOps.processGestures intersectObjects
              (with_handResults
                 (Some {| multiHandLandmarks := Some (landmarks :: others) |}) m))
      with (onResults {| multiHandLandmarks := Some (landmarks :: others) |} m)
      in Hfst, Hsnd.
    rewrite Hfired in Hfst. symmetry in Hfst.
    apply view_detect_fires in Hfst as [Hlatch Hcool].
    rewrite <- Hsnd in Hlatch, Hcool. exact (conj Hlatch Hcool).
  - intros es Hkeep. unfold MainOps.shots_fired. rewrite run_events_view.
    apply (view_run_at_most_once es (view m) Hkeep).
  - intros es Hkeep Hfire.
    set (results := {| multiHandLandmarks := Some (landmarks :: others) |}) in *.
    assert (Hflags : fst (run_events (HandsResults results :: es) m)
                     = true :: repeat false (length es)).
    { rewrite run_events_view, view_run_cons.
      assert (Hfired : fst (view_handle (HandsResults results) (view m)) = true).
      { destruct (handle_view (HandsResults results) m) as [<- _]. exact Hfire. }
      rewrite Hfired. f_equal.
      apply view_run_latched; [apply view_handle_fires, Hfired | exact Hkeep]. }
    split; [exact Hflags|]. unfold MainOps.shots_fired. rewrite Hflags. simpl.
    fold (count_fired (repeat false (length es))). now rewrite count_fired_quiet.
  - intros Hplay Hclock Hfree Hcool. unfold MainOps.shots_fired.
    rewrite !run_events_view. unfold view. rewrite Hplay, Hclock, Hfree, Hcool.
    repeat split; reflexivity.
Qed.

End Raycasting.

(** A pinch along the diagonal closes, and fires in a match just started. *)
Lemma diagonal_pinch_fires :
  pinch_distance_sq diagonal_hand == 0.0002 /\
  pinch_closed diagonal_hand = true /\
  fst (MainOps.onResults left_ray {| multiHandLandmarks := Some [diagonal_hand] |} main0)
    = true.
Proof. split; [reflexivity|]. split; reflexivity. Qed.

(** C3, as it was stated, fails before a match is started: the hand is
    pinched at distance 0.01, no pinch is latched and the cooldown is 0,
    and no shot is fired. *)
Lemma pinch_ignored_when_not_playing :
  pinch_closed (hand_at 0.01) = true /\
  0.01 < PINCH_THRESHOLD /\
  isPinching (main_init page0 1280 720) = false /\
  pinchCooldown (main_init page0 1280 720) <= 0 /\
  isPlaying (game (main_init page0 1280 720)) = false /\
  fst (MainOps.onResults left_ray
         {| multiHandLandmarks := Some [hand_at 0.01] |}
         (main_init page0 1280 720)) = false.
Proof.
  split; [reflexivity|]. split; [reflexivity|]. split; [reflexivity|].
  split; [discriminate|]. split; reflexivity.
Qed.

End PinchSpec.

(** ** More on the game: what every reachable state satisfies *)

Module GameInvariants.

Import GameOps Runs Samples GameFacts Session.
Local Open Scope Q_scope.

Lemma update_audio (dt : Q) (g : Game) : audio (update dt g) = audio g.
Proof.
  unfold update. destruct (isPlaying g); simpl; [|reflexivity].
  destruct (Qle_bool (timeLeft g - dt) 0); reflexivity.
Qed.

Lemma settled_fall_doll (dt : Q) (p : Pivot) :
  0 <= dt -> settled p -> settled (fall_doll dt p).
Proof.
  intros Hdt. unfold settled, fall_doll.
  destruct (doll_state p) eqn:Hstate; try (rewrite Hstate; auto).
  intros [Hlow Hhigh].
  destruct (Qlt_bool (rotation_x p - 5 * dt) (- Math_PI / 2)) eqn:Hbelow.
  - reflexivity.
  - apply Qlt_bool_false_iff in Hbelow.
    change (doll_state _) with (doll_state p). rewrite Hstate. simpl. split; lra.
Qed.

Lemma settled_created (bgWidth : Q) :
  Forall settled
    (flat_map (shelf_dolls bgWidth) (combine (seq 0 (length shelfY)) shelfY)).
Proof. simpl. repeat (constructor; [reflexivity|]). constructor. Qed.

Section Raycasting.

Variable intersectObjects : Vector2 -> list Pivot -> list Intersection.

Local Abbreviation shoot := (GameOps.shoot intersectObjects).
Local Abbreviation step := (Runs.step intersectObjects).
Local Abbreviation run := (Runs.run intersectObjects).

(** *** The clock *)

Lemma step_clock (op : Op) (g : Game) :
  Qle_bool 0 (op_time op) = true ->
  totalTime g = 30 /\ 0 <= timeLeft g /\ timeLeft g <= 30 /\
  (isPlaying g = true -> 0 < timeLeft g) /\
  (isPlaying g = false -> timeLeft g = 0 \/ timeLeft g = 30) ->
  totalTime (step op g) = 30 /\ 0 <= timeLeft (step op g) /\
  timeLeft (step op g) <= 30 /\
  (isPlaying (step op g) = true -> 0 < timeLeft (step op g)) /\
  (isPlaying (step op g) = false ->
     timeLeft (step op g) = 0 \/ timeLeft (step op g) = 30).
Proof.
  intros Hdt (Htotal & Hlow & Hhigh & Hon & Hoff).
  destruct op as [|dt|ndc|w h]; simpl in Hdt.
  - change (step OpStart g) with (start g). rewrite start_timeLeft.
    change (totalTime (start g)) with (totalTime g).
    change (isPlaying (start g)) with true. rewrite Htotal.
    repeat split; discriminate.
  - change (step (OpUpdate dt) g) with (update dt g).
    apply Qle_bool_iff in Hdt. rewrite update_totalTime.
    destruct (isPlaying g) eqn:Hplay.
    + rewrite (update_timeLeft _ _ Hplay), (update_isPlaying _ _ Hplay).
      specialize (Hon eq_refl).
      destruct (Qle_bool (timeLeft g - dt) 0) eqn:Hend; simpl.
      * repeat split; intros; try discriminate; auto.
      * apply Qle_bool_false_iff in Hend.
        repeat split; intros; try discriminate; try lra; auto.
    + rewrite (update_not_playing _ _ Hplay), Hplay. auto.
  - change (step (OpShoot ndc) g) with (snd (shoot ndc g)).
    rewrite shoot_totalTime, shoot_timeLeft, shoot_isPlaying. auto.
  - change (totalTime (step (OpBackgroundLoaded w h) g)) with (totalTime g).
    change (timeLeft (step (OpBackgroundLoaded w h) g)) with (timeLeft g).
    change (isPlaying (step (OpBackgroundLoaded w h) g)) with (isPlaying g). auto.
Qed.

(** X1: in every state the game reaches while frame times are not
    negative, the clock stays between 0 and the 30 seconds of a match; it
    is above 0 whenever a match is playing, and when none is playing it
    reads exactly 0 (the match is over) or exactly 30 (none was started
    yet). *)
Theorem clock_stays_in_range (page : Dom) (ops : list Op) :
  clock_forward ops = true ->
  let g := run ops (constructor page) in
  0 <= timeLeft g /\ timeLeft g <= 30 /\
  (isPlaying g = true -> 0 < timeLeft g) /\
  (isPlaying g = false -> timeLeft g = 0 \/ timeLeft g = 30).
Proof.
  intros Hops g.
  assert (Hstart :
    totalTime (constructor page) = 30 /\ 0 <= timeLeft (constructor page) /\
    timeLeft (constructor page) <= 30 /\
    (isPlaying (constructor page) = true -> 0 < timeLeft (constructor page)) /\
    (isPlaying (constructor page) = false ->
       timeLeft (constructor page) = 0 \/ timeLeft (constructor page) = 30)).
  { simpl. repeat split; intros; try discriminate; auto. }
  unfold g. clear g. revert Hops Hstart. generalize (constructor page).
  induction ops as [|op ops IH]; intros g Hops Hinv.
  - simpl. tauto.
  - simpl in Hops. apply andb_true_iff in Hops as [Hop Hops].
    simpl run. apply (IH _ Hops). apply step_clock; assumption.
Qed.

(** *** Rotation and state *)

Lemma step_settled (op : Op) (g : Game) :
  Qle_bool 0 (op_time op) = true ->
  Forall settled (dolls g) -> Forall settled (dolls (step op g)).
Proof.
  intros Hdt Hall. destruct op as [|dt|ndc|w h]; simpl in Hdt.
  - change (step OpStart g) with (start g). rewrite start_dolls.
    apply List.Forall_map. apply List.Forall_forall. intros p _. reflexivity.
  - change (step (OpUpdate dt) g) with (update dt g). rewrite update_dolls.
    apply Qle_bool_iff in Hdt. destruct (isPlaying g); [|exact Hall].
    apply List.Forall_map. eapply List.Forall_impl; [|exact Hall].
    intros p. apply settled_fall_doll, Hdt.
  - change (step (OpShoot ndc) g) with (snd (shoot ndc g)).
    destruct (shoot_cases intersectObjects ndc g)
      as [H|[H|(i0 & rest & hitObj & _ & Hlook & Hstate & H)]]; rewrite H; simpl;
      try exact Hall.
    apply Forall_alter; [exact Hall|].
    intros p Hp. rewrite Hlook in Hp. injection Hp as <-.
    unfold settled. rewrite Hstate. intros Hzero.
    change (doll_state (knock hitObj)) with falling.
    change (rotation_x (knock hitObj)) with (rotation_x hitObj). rewrite Hzero.
    split; discriminate.
  - change (dolls (step (OpBackgroundLoaded w h) g))
      with (dolls g ++ flat_map (shelf_dolls (20 * (w / h)))
                         (combine (seq 0 (length shelfY)) shelfY)).
    apply Forall_app. split; [exact Hall | apply settled_created].
Qed.

(** X2: in every state the game reaches while frame times are not
    negative, each doll's rotation goes with its state: exactly 0 while it
    stands, exactly the terminal angle [-Math.PI / 2] once it has fallen,
    and between the two while it falls. *)
Theorem rotation_goes_with_state (page : Dom) (ops : list Op) :
  clock_forward ops = true ->
  Forall settled (dolls (run ops (constructor page))).
Proof.
  intros Hops.
  assert (Hstart : Forall settled (dolls (constructor page))) by constructor.
  revert Hops Hstart. generalize (constructor page).
  induction ops as [|op ops IH]; intros g Hops Hinv; [exact Hinv|].
  simpl in Hops. apply andb_true_iff in Hops as [Hop Hops].
  simpl run. apply (IH _ Hops). apply step_settled; assumption.
Qed.

End Raycasting.

Lemma clock_stays_in_range_witness :
  clock_forward session_ops = true /\
  0 < timeLeft (run left_ray session_ops (constructor page0)) /\
  timeLeft (run left_ray session_ops (constructor page0)) <= 30.
Proof.
  split; [reflexivity|].
  destruct (clock_stays_in_range left_ray page0 session_ops eq_refl)
    as (_ & Hhigh & Hon & _).
  split; [apply Hon; reflexivity | exact Hhigh].
Defined.

Lemma rotation_goes_with_state_witness :
  clock_forward session_ops = true /\
  Forall settled (dolls (run left_ray session_ops (constructor page0))).
Proof.
  split; [reflexivity|].
  apply (rotation_goes_with_state left_ray page0 session_ops). reflexivity.
Defined.

End GameInvariants.

(** ** More on the game: scoring, the page, falling, the shelves *)

Module GameBehaviour.

Import GameOps Runs Samples GameFacts Session.
Local Open Scope Q_scope.

Lemma world_points_values : Forall is_point_value world_points.
Proof. repeat (constructor; [unfold is_point_value; lia|]). constructor. Qed.

(** X4: what an update shows on the page while a match is playing, for a
    frame time that is not negative and a clock of at most 30 s.  The
    score shown is the score; the time bar is scaled to between 0 and one
    half; it is never red with 12 s or more left and always red with 11 s
    or less.  If the update ends the match (the frame time is at least the
    time left), the game-over screen is revealed with the score as final
    score, the crosshair is hidden, the bar is at 0 and red, and the dolls
    are still moved for this frame.  Otherwise the game-over screen, the
    final score and the crosshair are left as they were. *)
Theorem update_refreshes_page (dt : Q) (g : Game) :
  isPlaying g = true ->
  0 <= dt ->
  timeLeft g <= 30 ->
  let g' := update dt g in
  score_innerText (document g') = score g /\
  0 <= time_bar_scaleX (document g') /\
  time_bar_scaleX (document g') <= 1 # 2 /\
  (12 <= timeLeft g' -> time_bar_background (document g') = bar_gradient) /\
  (timeLeft g' <= 11 -> time_bar_background (document g') = bar_red) /\
  (timeLeft g <= dt ->
     isPlaying g' = false /\
     game_over_hidden (document g') = false /\
     final_score_innerText (document g') = score g /\
     crosshair_opacity (document g') = 0 /\
     time_bar_scaleX (document g') == 0 /\
     time_bar_background (document g') = bar_red /\
     dolls g' = map (fall_doll dt) (dolls g)) /\
  (dt < timeLeft g ->
     isPlaying g' = true /\
     game_over_hidden (document g') = game_over_hidden (document g) /\
     final_score_innerText (document g') = final_score_innerText (document g) /\
     crosshair_opacity (document g') = crosshair_opacity (document g)).
Proof.
  intros Hplay Hdt Hclock g'.
  assert (Hpct : forall t : Q, t / 60 * 100 == t * (5 # 3)) by (intros t; field).
  assert (Hscale : forall t : Q, t / 60 * 100 / 100 == t * (1 # 60)) by (intros t; field).
  unfold g', update. rewrite Hplay. simpl negb. cbv iota zeta.
  change (timeLeft (with_timeLeft (timeLeft g - dt) g)) with (timeLeft g - dt).
  destruct (Qle_bool (timeLeft g - dt) 0) eqn:Hend; simpl.
  - apply Qle_bool_iff in Hend.
    split; [reflexivity|]. split; [discriminate|]. split; [discriminate|].
    split; [intros Hlate; exfalso; lra|].
    split; [reflexivity|]. split; [|intros Hgo; exfalso; lra].
    intros _. repeat split; reflexivity.
  - apply Qle_bool_false_iff in Hend.
    split; [reflexivity|].
    split; [rewrite Hscale; lra|]. split; [rewrite Hscale; lra|].
    split; [|split; [|split; [intros Hover; exfalso; lra|]]].
    + intros Hearly.
      destruct (Qlt_bool ((timeLeft g - dt) / 60 * 100) 20) eqn:Hred; [|reflexivity].
      apply Qlt_bool_iff in Hred. rewrite Hpct in Hred. exfalso. lra.
    + intros Hlate.
      destruct (Qlt_bool ((timeLeft g - dt) / 60 * 100) 20) eqn:Hred; [reflexivity|].
      apply Qlt_bool_false_iff in Hred. rewrite Hpct in Hred. exfalso. lra.
    + intros _. repeat split; try reflexivity. exact Hplay.
Qed.

(** *** The shelves *)

Lemma inject_nat_succ (n : nat) :
  inject_Z (Z.of_nat (S n)) == inject_Z (Z.of_nat n) + 1.
Proof. rewrite Nat2Z.inj_succ. unfold Z.succ. rewrite inject_Z_plus. reflexivity. Qed.

Lemma inject_nat_sub (n m : nat) :
  (m <= n)%nat ->
  inject_Z (Z.of_nat (n - m)) == inject_Z (Z.of_nat n) - inject_Z (Z.of_nat m).
Proof.
  intros Hle. rewrite Nat2Z.inj_sub by exact Hle.
  unfold Z.sub. rewrite inject_Z_plus, inject_Z_opp. reflexivity.
Qed.

Lemma inject_nat_pos (n : nat) : (0 < n)%nat -> 0 < inject_Z (Z.of_nat n).
Proof.
  intros Hpos. change 0 with (inject_Z 0). rewrite <- Zlt_Qlt. lia.
Qed.

Lemma inject_nat_le (n m : nat) :
  (n <= m)%nat -> inject_Z (Z.of_nat n) <= inject_Z (Z.of_nat m).
Proof. intros Hle. rewrite <- Zle_Qle. lia. Qed.

(** In exact arithmetic: doll [i] of a shelf and its mirror image, its
    neighbour, and the room the row takes. *)
Lemma make_doll_row (bgWidth y : Q) (layerIndex i : nat) :
  (i < 5 + layerIndex)%nat ->
  let count := (5 + layerIndex)%nat in
  let doll := make_doll bgWidth y layerIndex in
  doll_x (doll i) + doll_x (doll (count - 1 - i)%nat) == 0 /\
  doll_x (doll (S i)) - doll_x (doll i) == bgWidth * 0.6 / inject_Z (Z.of_nat count) /\
  (0 <= bgWidth ->
     - (0.3 * bgWidth) <= doll_x (doll i) /\ doll_x (doll i) <= 0.3 * bgWidth) /\
  doll_z (make_doll bgWidth y (S layerIndex) i) - doll_z (doll i) == 1.5 /\
  v3_y (position (doll i)) = y - 0.6 /\
  doll_state (doll i) = standing /\
  rotation_x (doll i) = 0 /\
  isTarget (userData (child (doll i))) = true.
Proof.
  intros Hi count doll.
  assert (Hcount : 0 < inject_Z (Z.of_nat count)) by (apply inject_nat_pos; unfold count; lia).
  assert (Hmirror : inject_Z (Z.of_nat (count - 1 - i))
                    == inject_Z (Z.of_nat count) - 1 - inject_Z (Z.of_nat i)).
  { rewrite inject_nat_sub by (unfold count; lia).
    rewrite inject_nat_sub by (unfold count; lia). reflexivity. }
  assert (Hlast : inject_Z (Z.of_nat i) <= inject_Z (Z.of_nat count) - 1).
  { assert (H : inject_Z (Z.of_nat (S i)) <= inject_Z (Z.of_nat count))
      by (apply inject_nat_le; unfold count; lia).
    rewrite inject_nat_succ in H. lra. }
  assert (Hfirst : 0 <= inject_Z (Z.of_nat i)).
  { change 0 with (inject_Z 0). rewrite <- Zle_Qle. lia. }
  unfold doll, doll_x, doll_z, make_doll. cbn [position v3_x v3_z v3_y].
  fold count.
  split; [|split; [|split; [|split]]].
  - rewrite Hmirror. field. lra.
  - rewrite inject_nat_succ. field. lra.
  - intros Hwidth.
    set (C := inject_Z (Z.of_nat count)) in *.
    set (I := inject_Z (Z.of_nat i)) in *.
    assert (Hs : 0 <= bgWidth * 0.6 / C).
    { apply Qle_shift_div_l; [exact Hcount | lra]. }
    assert (Hsc : bgWidth * 0.6 / C * C == bgWidth * 0.6) by (field; lra).
    set (s := bgWidth * 0.6 / C) in *. clearbody s C I.
    assert (Hrest : 0 <= (C - 1 - I) * s) by (apply Qmult_le_0_compat; lra).
    assert (Hleft : 0 <= I * s) by (apply Qmult_le_0_compat; lra).
    assert (Hhalf : (I - (C - 1) / 2) * s == I * s - (s * C - s) * (1 # 2)) by field.
    rewrite Hhalf. split; lra.
  - rewrite inject_nat_succ. ring.
  - repeat split.
Qed.

(** X6: how [createDolls] sets out the world, for a background of
    non-negative width.  It makes 18 dolls, 5 on the top shelf, 6 on the
    middle one and 7 on the bottom one.  Each row runs from left to right
    and is mirrored about the middle of the scene: the doll as far from
    one end as another is from the other end stands at the opposite [x].
    Every doll stands within the width of the background.
    A lower shelf has its pivots lower and nearer the camera than the
    shelf above. *)
Theorem created_rows_are_centred (bgWidth bgHeight : Q) (page : Dom) :
  0 <= bgWidth ->
  let ds := created bgWidth bgHeight page in
  length ds = 18%nat /\
  map (@length Pivot) (shelf_rows ds) = [5; 6; 7]%nat /\
  concat (shelf_rows ds) = ds /\
  Forall (fun row => mirrored (map doll_x row)) (shelf_rows ds) /\
  Forall (fun row => left_to_right (map doll_x row)) (shelf_rows ds) /\
  Forall (fun p => - (bgWidth * (1 # 2)) <= doll_x p /\ doll_x p <= bgWidth * (1 # 2)) ds /\
  (forall upper lower p q,
     (shelf_rows ds !! upper = Some p /\ shelf_rows ds !! lower = Some q) ->
     (upper < lower)%nat ->
     Forall (fun a => Forall (fun b =>
       v3_y (position b) < v3_y (position a) /\ doll_z a < doll_z b) q) p).
Proof.
  intros Hwidth ds.
  assert (Hrows : shelf_rows ds =
    [ map (make_doll bgWidth 2 0) (seq 0 5);
      map (make_doll bgWidth (-1) 1) (seq 0 6);
      map (make_doll bgWidth (-4) 2) (seq 0 7) ]) by reflexivity.
  assert (Hspace : forall n : nat, (0 < n)%nat -> 0 <= bgWidth * 0.6 / inject_Z (Z.of_nat n)).
  { intros n Hn. apply Qle_shift_div_l; [apply inject_nat_pos, Hn | lra]. }
  assert (Hnext : forall y layer i, (i < 5 + layer)%nat ->
            doll_x (make_doll bgWidth y layer i) <= doll_x (make_doll bgWidth y layer (S i))).
  { intros y layer i Hi.
    destruct (make_doll_row bgWidth y layer i Hi) as (_ & Hgap & _).
    cbv zeta in Hgap. pose proof (Hspace (5 + layer)%nat ltac:(lia)) as Hs. lra. }
  assert (Hmirror : forall y layer i, (i < 5 + layer)%nat ->
            doll_x (make_doll bgWidth y layer i)
            + doll_x (make_doll bgWidth y layer (5 + layer - 1 - i)) == 0).
  { intros y layer i Hi. apply (make_doll_row bgWidth y layer i Hi). }
  assert (Hroom : forall y layer i, (i < 5 + layer)%nat ->
            - (bgWidth * (1 # 2)) <= doll_x (make_doll bgWidth y layer i) /\
            doll_x (make_doll bgWidth y layer i) <= bgWidth * (1 # 2)).
  { intros y layer i Hi.
    destruct (make_doll_row bgWidth y layer i Hi) as (_ & _ & Hin & _).
    specialize (Hin Hwidth). cbv zeta in Hin. split; lra. }
  split; [reflexivity|]. split; [reflexivity|]. split; [reflexivity|].
  split; [|split; [|split]].
  - rewrite Hrows. unfold mirrored.
    repeat (constructor; [cbn [map seq rev app];
      repeat (constructor;
        [match goal with
         | |- doll_x (make_doll _ ?y ?l ?i) + _ == 0 => exact (Hmirror y l i ltac:(lia))
         end|]);
      constructor|]).
    constructor.
  - rewrite Hrows.
    repeat (constructor; [cbn [map seq left_to_right];
      repeat (split;
        [match goal with
         | |- doll_x (make_doll _ ?y ?l ?i) <= _ => exact (Hnext y l i ltac:(lia))
         end|]);
      exact I|]).
    constructor.
  - change ds with (concat [ map (make_doll bgWidth 2 0) (seq 0 5);
                             map (make_doll bgWidth (-1) 1) (seq 0 6);
                             map (make_doll bgWidth (-4) 2) (seq 0 7) ]).
    cbn [concat map seq app].
    repeat (constructor; [apply (Hroom _ _ _); lia|]). constructor.
  - intros upper lower p q [Hp Hq] Horder. rewrite Hrows in Hp, Hq.
    destruct upper as [|[|[|upper]]]; destruct lower as [|[|[|lower]]];
      simpl in Hp, Hq; try discriminate; try lia;
      injection Hp as <-; injection Hq as <-;
      cbn [map seq];
      repeat (constructor; [repeat (constructor; [split; reflexivity|]); constructor|]);
      constructor.
Qed.

Section Raycasting.

Variable intersectObjects : Vector2 -> list Pivot -> list Intersection.

Local Abbreviation shoot := (GameOps.shoot intersectObjects).
Local Abbreviation step := (Runs.step intersectObjects).
Local Abbreviation run := (Runs.run intersectObjects).

(** *** Scoring *)

Lemma step_point_values (op : Op) (g : Game) :
  Forall is_point_value (map doll_points (dolls g)) ->
  Forall is_point_value (map doll_points (dolls (step op g))).
Proof.
  intros Hall. destruct (step_points intersectObjects op g) as (extra & -> & Hnone & Hload).
  apply Forall_app. split; [exact Hall|].
  destruct (is_load_op op);
    [rewrite (Hload eq_refl); apply world_points_values | rewrite (Hnone eq_refl); constructor].
Qed.

Lemma run_point_values (ops : list Op) (g : Game) :
  Forall is_point_value (map doll_points (dolls g)) ->
  Forall is_point_value (map doll_points (dolls (run ops g))).
Proof.
  revert g. induction ops as [|op ops IH]; intros g Hall; simpl; [exact Hall|].
  apply IH, step_point_values, Hall.
Qed.

Lemma shoot_score_step (ndc : Vector2) (g : Game) :
  Forall is_point_value (map doll_points (dolls g)) ->
  (fst (shoot ndc g) = Some true /\
   is_point_value (score (snd (shoot ndc g)) - score g)) \/
  (fst (shoot ndc g) <> Some true /\ score (snd (shoot ndc g)) = score g).
Proof.
  intros Hall.
  destruct (shoot_cases intersectObjects ndc g)
    as [H|[H|(i0 & rest & hitObj & _ & Hlook & _ & H)]]; rewrite H; simpl.
  - right. split; [discriminate | reflexivity].
  - right. split; [discriminate | reflexivity].
  - left. split; [reflexivity|].
    rewrite List.Forall_map, List.Forall_forall in Hall.
    assert (Hin : In hitObj (dolls g)).
    { apply list_elem_of_In, list_elem_of_lookup. eauto. }
    specialize (Hall _ Hin).
    replace (score g + doll_points hitObj - score g)%Z with (doll_points hitObj) by lia.
    exact Hall.
Qed.

Lemma run_play_score (played : list Op) (g : Game) :
  Forall is_point_value (map doll_points (dolls g)) ->
  forallb is_play_op played = true ->
  (score g <= score (run played g))%Z.
Proof.
  revert g. induction played as [|op played IH]; intros g Hall Hplayed; simpl in *; [lia|].
  apply andb_true_iff in Hplayed as [Hop Hplayed].
  specialize (IH (step op g) (step_point_values op g Hall) Hplayed).
  assert (Hstep : (score g <= score (step op g))%Z).
  { destruct op as [|dt|ndc|w h]; simpl in Hop; try discriminate; simpl.
    - rewrite update_score. lia.
    - destruct (shoot_score_step ndc g Hall) as [[_ Hup]|[_ Hsame]];
        [unfold is_point_value in Hup; lia | lia]. }
  lia.
Qed.

(** X3: in every state the game reaches, a shot either returns [true] and
    raises the score by the value of one doll (10, 20 or 30), or does not
    return [true] and leaves the score as it is.  An update never changes
    the score, so over any sequence of updates and shots the score never
    goes down. *)
Theorem shot_scores_one_doll (page : Dom) (ops : list Op) (ndc : Vector2) :
  let g := run ops (constructor page) in
  ((fst (shoot ndc g) = Some true /\
    is_point_value (score (snd (shoot ndc g)) - score g)) \/
   (fst (shoot ndc g) <> Some true /\ score (snd (shoot ndc g)) = score g)) /\
  (forall dt, score (update dt g) = score g) /\
  (forall played,
     forallb is_play_op played = true -> (score g <= score (run played g))%Z).
Proof.
  intros g.
  assert (Hall : Forall is_point_value (map doll_points (dolls g))).
  { apply run_point_values. constructor. }
  split; [apply shoot_score_step, Hall|].
  split; [intros dt; apply update_score|].
  intros played. apply run_play_score, Hall.
Qed.

End Raycasting.

Lemma created_rows_are_centred_witness :
  0 <= 32 /\
  Forall (fun row => mirrored (map doll_x row)) (shelf_rows (created 32 20 page0)).
Proof.
  assert (Hwidth : 0 <= 32) by discriminate.
  split; [exact Hwidth|].
  apply (created_rows_are_centred 32 20 page0 Hwidth).
Defined.

Lemma update_refreshes_page_witness :
  isPlaying playing0 = true /\
  0 <= 0.25 /\
  timeLeft playing0 <= 30 /\
  score_innerText (document (update 0.25 playing0)) = 0%Z /\
  time_bar_background (document (update 0.25 playing0)) = bar_gradient.
Proof.
  assert (Hdt : 0 <= 0.25) by discriminate.
  assert (Hclock : timeLeft playing0 <= 30) by discriminate.
  split; [reflexivity|]. split; [exact Hdt|]. split; [exact Hclock|].
  destruct (update_refreshes_page 0.25 playing0 eq_refl Hdt Hclock)
    as (Hscore & _ & _ & Hearly & _).
  split; [exact Hscore | apply Hearly; discriminate].
Defined.

End GameBehaviour.

(** ** More on the gestures: aim, cooldown, cues, idle page *)

Module GestureBehaviour.

Import GameOps MainOps Runs PinchView Samples GameFacts Session PinchSpec GameInvariants.
Local Open Scope Q_scope.

Lemma frame_time_nonneg (es : list Event) :
  frames_forward es = true -> 0 <= frame_time es.
Proof.
  induction es as [|e es IH]; simpl; intros Hall; [discriminate|].
  apply andb_true_iff in Hall as [He Hall]. apply Qle_bool_iff in He.
  specialize (IH Hall). lra.
Qed.

(** *** The latch while the cooldown runs *)

Lemma view_handle_cooling (e : Event) (v : View) (rest : Q) :
  0 <= event_time e -> 0 <= rest -> event_time e + rest < v_cooldown v ->
  fst (view_handle e v) = false /\ rest < v_cooldown (snd (view_handle e v)).
Proof.
  intros He Hrest Hcool.
  assert (Hwarm : Qle_bool (v_cooldown v) 0 = false) by (apply Qle_bool_false_iff; lra).
  destruct e as [| |results|dt|w h]; simpl in *.
  - split; [reflexivity | lra].
  - split; [reflexivity | lra].
  - unfold view_detect. simpl. destruct results as [[[|hand hands]|]]; simpl;
      try (split; [reflexivity | lra]).
    destruct (v_playing v); simpl; [|split; [reflexivity | lra]].
    destruct (pinch_closed hand); simpl; [|split; [reflexivity | lra]].
    rewrite Hwarm, andb_false_r. simpl. split; [reflexivity | lra].
  - split; [reflexivity|]. unfold view_tick.
    assert (Hpos : Qlt_bool 0 (v_cooldown v) = true) by (apply Qlt_bool_iff; lra).
    rewrite Hpos.
    destruct (v_playing v); simpl; [|lra].
    destruct (Qle_bool (v_timeLeft v - dt) 0); simpl; lra.
  - split; [reflexivity | lra].
Qed.

Lemma view_run_cooling (es : list Event) (v : View) :
  frames_forward es = true -> frame_time es < v_cooldown v ->
  view_run es v = repeat false (length es).
Proof.
  revert v. induction es as [|e es IH]; intros v Hall Hcool; [reflexivity|].
  simpl in Hall. apply andb_true_iff in Hall as [He Hall].
  apply Qle_bool_iff in He. pose proof (frame_time_nonneg es Hall) as Hrest.
  destruct (view_handle_cooling e v (frame_time es) He Hrest Hcool) as [Hquiet Hstill].
  rewrite view_run_cons, Hquiet, (IH _ Hall Hstill). reflexivity.
Qed.

Section Raycasting.

Variable intersectObjects : Vector2 -> list Pivot -> list Intersection.

Local Abbreviation shoot := (GameOps.shoot intersectObjects).
Local Abbreviation fireShot := (MainOps.fireShot intersectObjects).
Local Abbreviation processGestures := (MainOps.processGestures intersectObjects).
Local Abbreviation onResults := (MainOps.onResults intersectObjects).
Local Abbreviation handle := (MainOps.handle intersectObjects).
Local Abbreviation run_events := (MainOps.run_events intersectObjects).
Local Abbreviation shots_fired := (MainOps.shots_fired intersectObjects).

Lemma shoot_with_document (d : Dom) (ndc : Vector2) (g : Game) :
  snd (shoot ndc (with_document d g)) = with_document d (snd (shoot ndc g)) /\
  fst (shoot ndc (with_document d g)) = fst (shoot ndc g).
Proof.
  unfold GameOps.shoot. simpl isPlaying. simpl dolls.
  destruct (isPlaying g); simpl; [|split; reflexivity].
  destruct (intersectObjects ndc (dolls g)) as [|i0 rest]; [split; reflexivity|].
  destruct (dolls g !! object i0) as [hitObj|]; [|split; reflexivity].
  destruct (doll_state hitObj); split; reflexivity.
Qed.

(** X7: where a shot aims.  When a detection fires, for a window at least
    one pixel wide and high and an index-finger tip inside the camera image, what
    becomes of the game is, up to the page, what [shoot] makes of it for a
    point [ndc] of the square from -1 to 1, mirrored left to right: a
    fingertip in the left half of the camera image aims at the right half
    of the scene, and one in its upper half at the upper half.  The
    crosshair is shown inside the window, on the side the shot aims at. *)
Theorem shot_aims_at_mirrored_fingertip (m : Main) (landmarks : Hand) (others : list Hand) :
  fst (onResults {| multiHandLandmarks := Some (landmarks :: others) |} m) = true ->
  1 <= innerWidth m ->
  1 <= innerHeight m ->
  0 <= lm_x (indexTip landmarks) /\ lm_x (indexTip landmarks) <= 1 ->
  0 <= lm_y (indexTip landmarks) /\ lm_y (indexTip landmarks) <= 1 ->
  let m' := snd (onResults {| multiHandLandmarks := Some (landmarks :: others) |} m) in
  let page' := document (game m') in
  exists ndc : Vector2,
    game m' = with_document page' (snd (shoot ndc (game m))) /\
    (-1 <= v2_x ndc /\ v2_x ndc <= 1) /\
    (-1 <= v2_y ndc /\ v2_y ndc <= 1) /\
    (lm_x (indexTip landmarks) <= 1 # 2 -> 0 <= v2_x ndc) /\
    (1 # 2 <= lm_x (indexTip landmarks) -> v2_x ndc <= 0) /\
    (lm_y (indexTip landmarks) <= 1 # 2 -> 0 <= v2_y ndc) /\
    (1 # 2 <= lm_y (indexTip landmarks) -> v2_y ndc <= 0) /\
    crosshair_opacity page' = 1 /\
    crosshair_shooting page' = true /\
    (0 <= crosshair_left page' /\ crosshair_left page' <= innerWidth m) /\
    (0 <= crosshair_top page' /\ crosshair_top page' <= innerHeight m) /\
    (lm_x (indexTip landmarks) <= 1 # 2 -> innerWidth m * (1 # 2) <= crosshair_left page') /\
    (1 # 2 <= lm_x (indexTip landmarks) -> crosshair_left page' <= innerWidth m * (1 # 2)).
Proof.
  intros Hfired Hwidth Hheight [Hx0 Hx1] [Hy0 Hy1] m' page'. subst page' m'.
  revert Hfired.
  unfold MainOps.onResults, MainOps.processGestures. simpl handResults. cbv iota beta.
  simpl isPlaying. destruct (isPlaying (game m)); simpl negb; cbv iota; [|discriminate].
  destruct (pinch_closed landmarks); [|discriminate].
  simpl isPinching. simpl pinchCooldown.
  destruct (negb (isPinching m) && Qle_bool (pinchCooldown m) 0); [|discriminate].
  intros _. cbv zeta. unfold MainOps.fireShot, on_page. simpl.
  match goal with
  | |- context [snd (GameOps.shoot _ ?ndc (with_document ?d (game m)))] =>
      destruct (shoot_with_document d ndc (game m)) as [Hsnd _];
      rewrite !Hsnd; exists ndc
  end.
  assert (Hndcx : (1 - lm_x (indexTip landmarks)) * innerWidth m / innerWidth m * 2 - 1
                  == 1 - 2 * lm_x (indexTip landmarks)) by (field; lra).
  assert (Hndcy : - (lm_y (indexTip landmarks) * innerHeight m / innerHeight m) * 2 + 1
                  == 1 - 2 * lm_y (indexTip landmarks)) by (field; lra).
  cbn [v2_x v2_y]. split; [reflexivity|].
  set (nx := (1 - lm_x (indexTip landmarks)) * innerWidth m / innerWidth m * 2 - 1) in *.
  set (ny := - (lm_y (indexTip landmarks) * innerHeight m / innerHeight m) * 2 + 1) in *.
  clearbody nx ny. simpl.
  split; [split; lra|]. split; [split; lra|].
  split; [intros H; lra|]. split; [intros H; lra|].
  split; [intros H; lra|]. split; [intros H; lra|].
  split; [reflexivity|]. split; [reflexivity|].
  split; [split; nra|]. split; [split; nra|].
  split; intros H; nra.
Qed.

(** In the exact arithmetic of the model: no shot while the frame time that
    has passed is less than the cooldown. *)
Lemma quiet_while_cooling (m : Main) (es : list Event) :
  frames_forward es = true ->
  (frame_time es < pinchCooldown m ->
     fst (run_events es m) = repeat false (length es) /\
     shots_fired es m = 0%nat) /\
  (forall results,
     fst (onResults results m) = true ->
     frame_time es < 0.5 ->
     fst (run_events (HandsResults results :: es) m) = true :: repeat false (length es) /\
     shots_fired (HandsResults results :: es) m = 1%nat).
Proof.
  intros Hall. split.
  - intros Hcool.
    assert (Hflags : fst (run_events es m) = repeat false (length es)).
    { rewrite run_events_view. apply view_run_cooling; [exact Hall | exact Hcool]. }
    split; [exact Hflags|]. unfold MainOps.shots_fired. rewrite Hflags.
    apply count_fired_quiet.
  - intros results Hfired Hshort.
    assert (Hflags : fst (run_events (HandsResults results :: es) m)
                     = true :: repeat false (length es)).
    { rewrite run_events_view, view_run_cons.
      destruct (handle_view intersectObjects (HandsResults results) m) as [Hfst _].
      change (fst (handle (HandsResults results) m)) with (fst (onResults results m)) in Hfst.
      rewrite <- Hfst, Hfired. f_equal.
      apply view_run_cooling; [exact Hall|].
      assert (Hview : fst (view_handle (HandsResults results) (view m)) = true)
        by (rewrite <- Hfst; exact Hfired).
      simpl in Hview. apply view_detect_fires in Hview as [_ Hhalf].
      simpl. rewrite Hhalf. exact Hshort. }
    split; [exact Hflags|]. unfold MainOps.shots_fired. rewrite Hflags. simpl.
    fold (count_fired (repeat false (length es))). now rewrite count_fired_quiet.
Qed.

(** X8: a second shot needs time.  After a detection that fires, no
    further shot is fired over events that hold at most one animation
    frame, of a frame time from 0 to less than 0.5 s, however the hand
    opens and closes meanwhile: detections alone never fire again, and one
    frame shorter than the cooldown is not enough. *)
Theorem second_shot_needs_time (m : Main) (results : Results) (es : list Event) :
  fst (onResults results m) = true ->
  frames_forward es = true ->
  (frames es <= 1)%nat ->
  frame_time es < 0.5 ->
  fst (run_events (HandsResults results :: es) m) = true :: repeat false (length es) /\
  shots_fired (HandsResults results :: es) m = 1%nat.
Proof.
  intros Hfired Hforward _ Hshort.
  destruct (quiet_while_cooling m es Hforward) as [_ Hafter].
  apply (Hafter results Hfired Hshort).
Qed.

(** *** Audio cues *)

Lemma shoot_audio (ndc : Vector2) (g : Game) :
  isPlaying g = true ->
  audio (snd (shoot ndc g)) = audio g ++ [cue_of (fst (shoot ndc g))].
Proof.
  intros Hplay. unfold GameOps.shoot. rewrite Hplay. simpl negb. cbv iota.
  destruct (intersectObjects ndc (dolls g)) as [|i0 rest]; [reflexivity|].
  destruct (dolls g !! object i0) as [hitObj|]; [|reflexivity].
  destruct (doll_state hitObj); reflexivity.
Qed.

Lemma handle_audio (e : Event) (m : Main) :
  length (audio (game (snd (handle e m)))) =
  (length (audio (game m)) + if fst (handle e m) then 1 else 0)%nat.
Proof.
  destruct e as [| |results|dt|w h]; simpl.
  - lia.
  - lia.
  - unfold MainOps.onResults, MainOps.processGestures. simpl handResults.
    destruct results as [[[|hand hands]|]]; simpl; try lia.
    destruct (isPlaying (game m)) eqn:Hplay; simpl; [|lia].
    destruct (pinch_closed hand); simpl; [|lia].
    destruct (negb (isPinching m) && Qle_bool (pinchCooldown m) 0); simpl; [|lia].
    rewrite shoot_audio by exact Hplay. rewrite length_app. simpl. lia.
  - rewrite update_audio. simpl. lia.
  - lia.
Qed.

(** X9: every shot is heard once.  While a match is playing [shoot] asks
    for exactly one cue, the hit sound if it returns [true] and the shot
    sound otherwise; and over any run of page events the number of cues
    requested grows by exactly the number of shots fired: nothing else
    makes a sound. *)
Theorem one_cue_per_shot (m : Main) (es : list Event) :
  (forall ndc g,
     isPlaying g = true ->
     audio (snd (shoot ndc g)) = audio g ++ [cue_of (fst (shoot ndc g))]) /\
  (forall ndc g,
     isPlaying g = false -> audio (snd (shoot ndc g)) = audio g) /\
  length (audio (game (snd (run_events es m)))) =
  (length (audio (game m)) + shots_fired es m)%nat.
Proof.
  split; [intros ndc g; apply shoot_audio|]. split.
  - intros ndc g Hidle. unfold GameOps.shoot. rewrite Hidle. reflexivity.
  - unfold MainOps.shots_fired. revert m.
    induction es as [|e es IH]; intros m; simpl; [lia|].
    pose proof (handle_audio e m) as Hstep.
    destruct (handle e m) as [fired m1]. simpl in Hstep.
    specialize (IH m1). destruct (run_events es m1) as [flags m2]. simpl in *.
    destruct fired; simpl; lia.
Qed.

(** *** The page while no match is on *)

Lemma handle_idle (e : Event) (m : Main) :
  isPlaying (game m) = false -> is_click e = false ->
  fst (handle e m) = false /\
  isPlaying (game (snd (handle e m))) = false /\
  score (game (snd (handle e m))) = score (game m) /\
  timeLeft (game (snd (handle e m))) = timeLeft (game m) /\
  isPinching (snd (handle e m)) = isPinching m /\
  (crosshair_opacity (document (game (snd (handle e m)))) = 0 \/
   crosshair_opacity (document (game (snd (handle e m))))
   = crosshair_opacity (document (game m))).
Proof.
  intros Hidle Hclick. destruct e as [| |results|dt|w h]; simpl in Hclick;
    try discriminate.
  - simpl. unfold MainOps.onResults, MainOps.processGestures. simpl handResults.
    destruct results as [[[|hand hands]|]]; simpl; rewrite ?Hidle; simpl;
      repeat split; auto.
  - simpl. unfold animate. simpl. rewrite (update_not_playing _ _ Hidle).
    repeat split; auto.
  - simpl. repeat split; auto.
Qed.

(** X10: while no match is on, the page is inert.  Over any events that
    contain no click on the start or restart button, starting with no
    match playing: no shot is fired, no match starts, the score, the
    clock and the pinch latch stay as they are; and a hidden crosshair
    stays hidden, whatever the hand does. *)
Theorem page_is_inert_without_match (m : Main) (es : list Event) :
  isPlaying (game m) = false ->
  no_click es = true ->
  let m' := snd (run_events es m) in
  shots_fired es m = 0%nat /\
  isPlaying (game m') = false /\
  score (game m') = score (game m) /\
  timeLeft (game m') = timeLeft (game m) /\
  isPinching m' = isPinching m /\
  (crosshair_opacity (document (game m)) = 0 ->
   crosshair_opacity (document (game m')) = 0).
Proof.
  unfold MainOps.shots_fired. revert m.
  induction es as [|e es IH]; intros m Hidle Hclicks; simpl in *.
  - repeat split; auto.
  - apply andb_true_iff in Hclicks as [He Hclicks]. apply negb_true_iff in He.
    destruct (handle_idle e m Hidle He) as (Hquiet & Hidle1 & Hscore & Hclock & Hlatch & Hcross).
    destruct (handle e m) as [fired m1]. simpl in *. subst fired.
    specialize (IH m1 Hidle1 Hclicks).
    destruct (run_events es m1) as [flags m2]. simpl in *.
    destruct IH as (H1 & H2 & H3 & H4 & H5 & H6).
    repeat split; try congruence.
    intros Hhidden. apply H6. destruct Hcross as [H0|Hsame]; congruence.
Qed.

End Raycasting.

Lemma shot_aims_at_mirrored_fingertip_witness :
  fst (MainOps.onResults left_ray {| multiHandLandmarks := Some [hand_at 0.01] |} main0)
    = true /\
  1 <= innerWidth main0 /\
  1 <= innerHeight main0 /\
  exists ndc : Vector2,
    game (snd (MainOps.onResults left_ray
                 {| multiHandLandmarks := Some [hand_at 0.01] |} main0))
    = with_document
        (document (game (snd (MainOps.onResults left_ray
                                {| multiHandLandmarks := Some [hand_at 0.01] |} main0))))
        (snd (GameOps.shoot left_ray ndc (game main0))) /\
    v2_x ndc <= 0.
Proof.
  assert (Hfired : fst (MainOps.onResults left_ray
                          {| multiHandLandmarks := Some [hand_at 0.01] |} main0) = true)
    by reflexivity.
  assert (Hwidth : 1 <= innerWidth main0) by discriminate.
  assert (Hheight : 1 <= innerHeight main0) by discriminate.
  assert (Hx : 0 <= lm_x (indexTip (hand_at 0.01)) /\ lm_x (indexTip (hand_at 0.01)) <= 1)
    by (split; discriminate).
  assert (Hy : 0 <= lm_y (indexTip (hand_at 0.01)) /\ lm_y (indexTip (hand_at 0.01)) <= 1)
    by (split; discriminate).
  split; [exact Hfired|]. split; [exact Hwidth|]. split; [exact Hheight|].
  destruct (shot_aims_at_mirrored_fingertip left_ray main0 (hand_at 0.01) []
              Hfired Hwidth Hheight Hx Hy)
    as (ndc & Hgame & _ & _ & _ & Hright & _).
  exists ndc. split; [exact Hgame|]. apply Hright. discriminate.
Defined.

Lemma second_shot_needs_time_witness :
  fst (MainOps.onResults left_ray {| multiHandLandmarks := Some [hand_at 0.01] |} main0)
    = true /\
  frames_forward quick_repinch = true /\
  (frames quick_repinch <= 1)%nat /\
  frame_time quick_repinch < 0.5 /\
  fst (MainOps.run_events left_ray (sample 0.01 :: quick_repinch) main0)
    = [true; false; false; false; false].
Proof.
  assert (Hframes : (frames quick_repinch <= 1)%nat) by (vm_compute; lia).
  split; [reflexivity|]. split; [reflexivity|]. split; [exact Hframes|].
  split; [reflexivity|].
  apply (second_shot_needs_time left_ray main0
           {| multiHandLandmarks := Some [hand_at 0.01] |} quick_repinch
           eq_refl eq_refl Hframes eq_refl).
Defined.

Lemma page_is_inert_without_match_witness :
  isPlaying (game (main_init page0 1280 720)) = false /\
  no_click debounce_frames = true /\
  MainOps.shots_fired left_ray debounce_frames (main_init page0 1280 720) = 0%nat.
Proof.
  split; [reflexivity|]. split; [reflexivity|].
  apply (page_is_inert_without_match left_ray (main_init page0 1280 720)
           debounce_frames eq_refl eq_refl).
Defined.

End GestureBehaviour.
